(** * Coverage geometry and mission loop of the orbits repository

    Shallow embedding of

    - [oc/src/DiscreteCoverageChecker.cpp]: [projectionAlg] and
      [getNadirToSpacecraftAccessMatrix];
    - [orbitpy/oci/orbitpropcov.cpp]: the propagation loop of [main].

    The C++ type [Real] is [double].  It is modelled by the exact real
    numbers extended with the IEEE special values: an operation that is
    undefined on the reals yields [NaN] or an infinity as IEEE 754
    prescribes, every other operation is computed exactly.  Rounding and
    overflow are not modelled, and the model has one zero, which divides
    like [+0].  What is proved over this model is what holds whatever
    the rounding: domain errors, the propagation of [NaN], ranges,
    symmetries and orderings.

    Where rounding itself decides the outcome of [projectionAlg], module
    [Binary64] repeats the function over the binary64 numbers of
    IEEE 754 and the program is evaluated there. *)

From Stdlib Require Import Reals Lra Psatz ZArith List Bool.
From Stdlib Require Import Sorted Permutation.
From Stdlib Require String Ascii PrimFloat.
Import ListNotations.
Import String.StringSyntax Ascii.AsciiSyntax.
Delimit Scope char_scope with char.
Delimit Scope string_scope with string.

Local Open Scope R_scope.

(* ================================================================= *)
(** ** [Real]: doubles as extended reals *)

Inductive Real : Type :=
| Fin (x : R)
| Inf (negative : bool)
| NaN.

Declare Scope fp_scope.
Delimit Scope fp_scope with fp.
Bind Scope fp_scope with Real.

(** Sign bit of a finite value; zero counts as positive. *)
Definition signbit (x : R) : bool :=
  if Rlt_dec x 0 then true else false.

Definition fadd (a b : Real) : Real :=
  match a, b with
  | NaN, _ | _, NaN => NaN
  | Fin x, Fin y => Fin (x + y)
  | Fin _, Inf s | Inf s, Fin _ => Inf s
  | Inf s, Inf t => if Bool.eqb s t then Inf s else NaN
  end.

Definition fneg (a : Real) : Real :=
  match a with
  | Fin x => Fin (- x)
  | Inf s => Inf (negb s)
  | NaN => NaN
  end.

Definition fsub (a b : Real) : Real := fadd a (fneg b).

Definition fmul (a b : Real) : Real :=
  match a, b with
  | NaN, _ | _, NaN => NaN
  | Fin x, Fin y => Fin (x * y)
  | Fin x, Inf s | Inf s, Fin x =>
      if Req_dec_T x 0 then NaN else Inf (xorb (signbit x) s)
  | Inf s, Inf t => Inf (xorb s t)
  end.

Definition fdiv (a b : Real) : Real :=
  match a, b with
  | NaN, _ | _, NaN => NaN
  | Fin x, Fin y =>
      if Req_dec_T y 0
      then (if Req_dec_T x 0 then NaN else Inf (signbit x))
      else Fin (x / y)
  | Fin _, Inf _ => Fin 0
  | Inf s, Fin y => Inf (xorb s (signbit y))
  | Inf _, Inf _ => NaN
  end.

Definition fsin (a : Real) : Real :=
  match a with Fin x => Fin (sin x) | _ => NaN end.

Definition fcos (a : Real) : Real :=
  match a with Fin x => Fin (cos x) | _ => NaN end.

(** [acos] of [<cmath>]: a domain error outside [-1, 1]. *)
Definition facos (a : Real) : Real :=
  match a with
  | Fin x =>
      if Rle_dec (-1) x
      then (if Rle_dec x 1 then Fin (acos x) else NaN)
      else NaN
  | _ => NaN
  end.

Definition fsqrt (a : Real) : Real :=
  match a with
  | Fin x => if Rle_dec 0 x then Fin (sqrt x) else NaN
  | Inf false => Inf false
  | _ => NaN
  end.

(** [a < b]; every comparison with [NaN] is false. *)
Definition fltb (a b : Real) : bool :=
  match a, b with
  | Fin x, Fin y => if Rlt_dec x y then true else false
  | Fin _, Inf s => negb s
  | Inf s, Fin _ => s
  | Inf s, Inf t => s && negb t
  | _, _ => false
  end.

(** [a <= b]; false when either side is [NaN]. *)
Definition fleb (a b : Real) : bool :=
  match a, b with
  | Fin x, Fin y => if Rle_dec x y then true else false
  | Fin _, Inf s => negb s
  | Inf s, Fin _ => s
  | Inf s, Inf t => s || negb t
  | _, _ => false
  end.

(** [a < b] as a relation. *)
Definition fltR (a b : Real) : Prop := fltb a b = true.

Definition isNaN (a : Real) : bool :=
  match a with NaN => true | _ => false end.

Definition isFinite (a : Real) : bool :=
  match a with Fin _ => true | _ => false end.

Notation "a + b" := (fadd a b) : fp_scope.
Notation "a - b" := (fsub a b) : fp_scope.
Notation "a * b" := (fmul a b) : fp_scope.
Notation "a / b" := (fdiv a b) : fp_scope.
Notation "- a" := (fneg a) : fp_scope.
Notation "a <? b" := (fltb a b) (at level 70) : fp_scope.
Notation "a <=? b" := (fleb a b) (at level 70) : fp_scope.

(** The constant [pi] of the checker. *)
Definition pi : Real := Fin PI.

(* ================================================================= *)
(** ** Vectors, angle pairs and matrices *)

(** [Rvector3]: three [Real] elements, read with [v[i]]. *)
Record Rvector3 : Type := mkRvector3 { e0 : Real; e1 : Real; e2 : Real }.

(** [AnglePair] is [std::array<Real,2>]. *)
Definition AnglePair : Type := (Real * Real)%type.

(** [Rmatrix33], built row by row as the nine-argument constructor does. *)
Record Rmatrix33 : Type := mkRmatrix33 {
  m00 : Real; m01 : Real; m02 : Real;
  m10 : Real; m11 : Real; m12 : Real;
  m20 : Real; m21 : Real; m22 : Real
}.

(** [Rvector6]: position in elements 0..2, velocity in elements 3..5. *)
Record Rvector6 : Type := mkRvector6 {
  s0 : Real; s1 : Real; s2 : Real; s3 : Real; s4 : Real; s5 : Real
}.

(* ================================================================= *)
(** ** [DiscreteCoverageChecker::projectionAlg] *)

Section ProjectionAlg.

Local Open Scope fp_scope.

(** [centralBody->GetRadius()]: the radius of the central body is a
    constant of the [Earth] class, which is not under src/; it is a
    parameter here. *)
Variable r : Real.

Variables clock cone : Real.
Variable sphericalPos : Rvector3.

Let latSSP := e0 sphericalPos.
Let lonSSP := e1 sphericalPos.
Let H := e2 sphericalPos.

Definition sinRho : Real := r / (r + H).

Definition epsilon : Real := facos (fsin cone / sinRho).

Definition lambda : Real := (pi / Fin 2) - cone - epsilon.

Definition phiE : Real := - clock.

Definition latPPrime : Real :=
  facos (fcos lambda * fsin latSSP + fsin lambda * fcos latSSP * fcos phiE).

Definition latP : Real := pi / Fin 2 - latPPrime.

Definition deltaL : Real :=
  facos ((fcos lambda - fsin latSSP * fsin latP) / (fcos latSSP * fcos latP)).

Definition lonP : Real :=
  if clock <? pi then lonSSP + deltaL else lonSSP - deltaL.

Definition projectionAlg : AnglePair := (latP, lonP).

End ProjectionAlg.

(* ================================================================= *)
(** ** [DiscreteCoverageChecker::getNadirToSpacecraftAccessMatrix] *)

(** Modelled from the spec: [Rvector3::GetMagnitude] and [Cross] belong to
    the vector utilities of the repository, which are not under src/.
    The spec speaks of a re-normalized vector and of a triad completed
    by a cross product: [GetMagnitude] is the Euclidean length and
    [Cross] the vector product. *)
Definition GetMagnitude (v : Rvector3) : Real :=
  fsqrt (e0 v * e0 v + e1 v * e1 v + e2 v * e2 v)%fp.

Definition Cross (a b : Rvector3) : Rvector3 :=
  mkRvector3 (e1 a * e2 b - e2 a * e1 b)%fp
             (e2 a * e0 b - e0 a * e2 b)%fp
             (e0 a * e1 b - e1 a * e0 b)%fp.

(** Modelled from the spec: re-normalization divides every element of a
    vector by its magnitude. *)
Definition unitVector (v : Rvector3) : Rvector3 :=
  let mag := GetMagnitude v in
  mkRvector3 (e0 v / mag)%fp (e1 v / mag)%fp (e2 v / mag)%fp.

(** What is assumed of [Rvector3::Normalize], which is not under src/
    either: on a vector of finite, non-zero magnitude it is this
    division.  What it does with a zero vector is left open. *)
Definition normalizes (Normalize : Rvector3 -> Rvector3) : Prop :=
  forall (v : Rvector3) (mag : R),
    GetMagnitude v = Fin mag -> mag <> 0 -> Normalize v = unitVector v.

(** The vector handed to [Normalize]: the topocentric velocity with its
    first and third elements negated (lines 96 and 97). *)
Definition transformedVelocity (vel_T : Rvector3) : Rvector3 :=
  (* vel_T[0] = -vel_T[0]; *)
  let vel_T := mkRvector3 (- e0 vel_T)%fp (e1 vel_T) (e2 vel_T) in
  (* vel_T[2] = -vel_T[2]; *)
  mkRvector3 (e0 vel_T) (e1 vel_T) (- e2 vel_T)%fp.

Section AccessMatrix.

(** [centralBody->GetRadius()], [BodyFixedStateConverterUtil::
    CartesianToSpherical], [Earth::FixedToTopocentric] and
    [Rvector3::Normalize] are not under src/; they are parameters of the
    embedding. *)
Variable GetRadius : Real.
Variable CartesianToSpherical : Rvector3 -> Real -> Real -> Rvector3.
Variable FixedToTopocentric : Rvector3 -> Real -> Real -> Rvector3.
Variable Normalize : Rvector3 -> Rvector3.

(** The topocentric velocity of a body-fixed state (lines 88 to 93). *)
Definition topocentricVelocity (state_ECF : Rvector6) : Rvector3 :=
  let pos_ECF := mkRvector3 (s0 state_ECF) (s1 state_ECF) (s2 state_ECF) in
  let vel_ECF := mkRvector3 (s3 state_ECF) (s4 state_ECF) (s5 state_ECF) in
  let sphericalPos_ECF := CartesianToSpherical pos_ECF (Fin 1) GetRadius in
  FixedToTopocentric vel_ECF (e0 sphericalPos_ECF) (e1 sphericalPos_ECF).

(** Lines 95 to 104: from the topocentric velocity to the matrix. *)
Definition accessMatrixOfTopocentric (vel_T : Rvector3) : Rmatrix33 :=
  (* Transform velocity vector to Spacecraft Access coordinates and
     normalize *)
  let vel_T := Normalize (transformedVelocity vel_T) in
  (* Construct SA-N *)
  let zHat := mkRvector3 (Fin 0) (Fin 0) (Fin 1) in
  let xHat := Cross vel_T zHat in
  mkRmatrix33 (e0 xHat) (e0 vel_T) (e0 zHat)
              (e1 xHat) (e1 vel_T) (e1 zHat)
              (e2 xHat) (e2 vel_T) (e2 zHat).

Definition getNadirToSpacecraftAccessMatrix (state_ECF : Rvector6)
  : Rmatrix33 :=
  accessMatrixOfTopocentric (topocentricVelocity state_ECF).

End AccessMatrix.

(** Columns and orthonormality of a 3x3 matrix. *)
Definition column0 (m : Rmatrix33) : Rvector3 :=
  mkRvector3 (m00 m) (m10 m) (m20 m).
Definition column1 (m : Rmatrix33) : Rvector3 :=
  mkRvector3 (m01 m) (m11 m) (m21 m).
Definition column2 (m : Rmatrix33) : Rvector3 :=
  mkRvector3 (m02 m) (m12 m) (m22 m).

Definition dot (a b : Rvector3) : Real :=
  (e0 a * e0 b + e1 a * e1 b + e2 a * e2 b)%fp.

Definition orthonormal (m : Rmatrix33) : Prop :=
  dot (column0 m) (column0 m) = Fin 1
  /\ dot (column1 m) (column1 m) = Fin 1
  /\ dot (column2 m) (column2 m) = Fin 1
  /\ dot (column0 m) (column1 m) = Fin 0
  /\ dot (column0 m) (column2 m) = Fin 0
  /\ dot (column1 m) (column2 m) = Fin 0.

(** Right-handed: the third column is the vector product of the first
    two. *)
Definition rightHanded (m : Rmatrix33) : Prop :=
  Cross (column0 m) (column1 m) = column2 m.

(** Every entry is an ordinary number. *)
Definition finiteMatrix (m : Rmatrix33) : bool :=
  isFinite (m00 m) && isFinite (m01 m) && isFinite (m02 m)
  && isFinite (m10 m) && isFinite (m11 m) && isFinite (m12 m)
  && isFinite (m20 m) && isFinite (m21 m) && isFinite (m22 m).

(** An angle pair both of whose components are [NaN]. *)
Definition NaNValued (p : AnglePair) : bool := isNaN (fst p) && isNaN (snd p).

(** The same chain over the mathematical reals, for the inputs at which
    every step is defined. *)
Module RealChain.

Definition sinRho (r H : R) : R := r / (r + H).

Definition epsilon (r H cone : R) : R := acos (sin cone / sinRho r H).

Definition lambda (r H cone : R) : R := PI / 2 - cone - epsilon r H cone.

Definition latP (lam clock latSSP : R) : R :=
  PI / 2 - acos (cos lam * sin latSSP + sin lam * cos latSSP * cos (- clock)).

Definition deltaL (lam clock latSSP : R) : R :=
  acos ((cos lam - sin latSSP * sin (latP lam clock latSSP))
        / (cos latSSP * cos (latP lam clock latSSP))).

Definition lonP (lam clock latSSP lonSSP : R) : R :=
  if Rlt_dec clock PI then lonSSP + deltaL lam clock latSSP
  else lonSSP - deltaL lam clock latSSP.

End RealChain.

(** Earth-central angle between two points given by latitude and
    longitude (spherical law of cosines). *)
Definition centralAngle (p q : AnglePair) : Real :=
  facos (fsin (fst p) * fsin (fst q)
         + fcos (fst p) * fcos (fst q) * fcos (snd q - snd p))%fp.

(* ================================================================= *)
(** ** [projectionAlg] in binary64 arithmetic *)

(** Where rounding decides the outcome of [projectionAlg], the extended
    reals above say nothing about the program.  This module repeats
    lines 27 to 42 over the binary64 numbers of IEEE 754: [+], [-],
    [*], [/] and [<] are the primitive operations (round to nearest,
    ties to even), one for each operation of the source and in the
    order of the source.  [sin], [cos] and [acos] belong to the C
    library, which is not part of the repository; they are parameters.
    [pi], which is declared outside src/, is the double nearest to the
    number pi. *)
Module Binary64.

Import PrimFloat.
Local Open Scope float_scope.

Definition pi : float := 0x1.921fb54442d18p+1.

Record Rvector3 : Type := mkRvector3 { e0 : float; e1 : float; e2 : float }.

Definition AnglePair : Type := (float * float)%type.

Section ProjectionAlg.

Variables sin cos acos : float -> float.

(** [centralBody->GetRadius()]. *)
Variable r : float.

Variables clock cone : float.
Variable sphericalPos : Rvector3.

Let latSSP := e0 sphericalPos.
Let lonSSP := e1 sphericalPos.
Let H := e2 sphericalPos.

Definition sinRho : float := r / (r + H).

Definition epsilon : float := acos (sin cone / sinRho).

Definition lambda : float := (pi / 2) - cone - epsilon.

Definition phiE : float := - clock.

Definition latPPrime : float :=
  acos (cos lambda * sin latSSP + sin lambda * cos latSSP * cos phiE).

Definition latP : float := pi / 2 - latPPrime.

Definition deltaL : float :=
  acos ((cos lambda - sin latSSP * sin latP) / (cos latSSP * cos latP)).

Definition lonP : float :=
  if clock <? pi then lonSSP + deltaL else lonSSP - deltaL.

Definition projectionAlg : AnglePair := (latP, lonP).

End ProjectionAlg.

(** Arguments of [sin], [cos] and [acos], each with the value that a
    correctly rounded C library returns for it.  The arguments are those
    that the evaluations below reach. *)
Definition Samples : Type := list (float * float).

Definition sinSamples : Samples :=
  [ (0, 0);
    (0x1.77825b8bc6b38p-4, 0x1.76fbc1b4a3dbep-4);
    (0x1.77825e61af978p-4, 0x1.76fbc487805cfp-4);
    (0x1.443ed0cf2834p-3, 0x1.42e4791d9468p-3);
    (0x1.443ed23a1ca6p-3, 0x1.42e47a83fec0dp-3);
    (0x1p-2, 0x1.faaeed4f31577p-3);
    (0x1.8p-1, 0x1.5cffc16bf8f0dp-1);
    (0x1.fffffffffffffp-1, 0x1.aed548f090cedp-1);
    (0x1p+0, 0x1.aed548f090ceep-1);
    (0x1.921fb54442d18p+0, 0x1p+0) ].

Definition cosSamples : Samples :=
  [ (0, 0x1p+0);
    (-0, 0x1p+0);
    (0x1.77825b8bc6b38p-4, 0x1.fdd99390e7f42p-1);
    (0x1.77825e61af978p-4, 0x1.fdd99388995bep-1);
    (0x1.443ed0cf2834p-3, 0x1.f998b175f5985p-1);
    (0x1.443ed23a1ca6p-3, 0x1.f998b167a73d2p-1);
    (0x1p-2, 0x1.f01549f7deea1p-1);
    (0x1.fffffffffffffp-1, 0x1.14a280fb5068cp-1);
    (0x1p+0, 0x1.14a280fb5068cp-1);
    (0x1.921fb54442d18p+0, 0x1.1a62633145c07p-54);
    (-0x1.921fb54442d18p+1, -0x1p+0) ].

Definition acosSamples : Samples :=
  [ (0, 0x1.921fb54442d18p+0);
    (0x1.42e4791d94685p-3, 0x1.6997db2a5dcbp+0);
    (0x1.42e47a83fec11p-3, 0x1.6997dafcff3ccp+0);
    (0x1.7dd4719f80bc4p-1, 0x1.754f1f170ccc9p-1);
    (0x1.7dd471dbf445fp-1, 0x1.754f1ebc4fb01p-1);
    (0x1.aed548f090ceep-1, 0x1.243f6a8885a31p-1);
    (0x1p+0, 0);
    (0x1.0000000000001p+0, nan) ].

(** [f] returns the sampled value at every sampled argument. *)
Definition agrees (f : float -> float) (t : Samples) : Prop :=
  Forall (fun p => f (fst p) = snd p) t.

(** The function that knows the samples and nothing else. *)
Definition sampled (t : Samples) (x : float) : float :=
  fold_right (fun p rest => if fst p =? x then snd p else rest) nan t.

End Binary64.

(* ================================================================= *)
(** ** [main] of orbitpropcov.cpp: the propagation loop *)

(** [Integer] is [int] and [IntegerArray] is [std::vector<Integer>]; grid
    indices and the step counter stay far below [2^31], so they are
    modelled by unbounded integers. *)
Definition Integer : Type := Z.
Definition IntegerArray : Type := list Integer.

(** [std::sort] on an [IntegerArray]: ascending order. *)
Fixpoint insert (x : Integer) (l : IntegerArray) : IntegerArray :=
  match l with
  | [] => [x]
  | y :: t => if (x <=? y)%Z then x :: y :: t else y :: insert x t
  end.

Definition sort (l : IntegerArray) : IntegerArray := fold_right insert [] l.

(** [std::unique] followed by [erase]: of every run of equal neighbours
    only the first element is kept. *)
Fixpoint unique_from (prev : Integer) (l : IntegerArray) : IntegerArray :=
  match l with
  | [] => []
  | y :: t => if (prev =? y)%Z then unique_from prev t
              else y :: unique_from y t
  end.

Definition unique (l : IntegerArray) : IntegerArray :=
  match l with
  | [] => []
  | x :: t => x :: unique_from x t
  end.

(** [row[i] = v]; the source has undefined behaviour for an index
    outside the array, here the array is left as it is. *)
Fixpoint store (row : IntegerArray) (i : nat) (v : Integer) : IntegerArray :=
  match row, i with
  | [], _ => []
  | _ :: t, O => v :: t
  | x :: t, S i' => x :: store t i' v
  end.

Definition assign (row : IntegerArray) (i v : Integer) : IntegerArray :=
  if (i <? 0)%Z then row else store row (Z.to_nat i) v.

(** The collaborators of [main] that are not under src/: the date, the
    propagator and the coverage checker. *)
Record Collaborators : Type := {
  AbsoluteDate : Type;
  (** [date->GetJulianDate()] *)
  GetJulianDate : AbsoluteDate -> Real;
  (** [date->Advance(stepSize)] *)
  Advance : AbsoluteDate -> Real -> AbsoluteDate;
  (** [prop->Propagate( *date )] followed by [sat1->GetCartesianState()]:
      the Cartesian state of the spacecraft at a date *)
  Propagate : AbsoluteDate -> Rvector6;
  (** [covChecker->CheckPointCoverage()]: the grid points seen from the
      spacecraft at its current date and state, with the body rotated
      by 180 degrees about the yaw axis when the flag is set *)
  CheckPointCoverage : AbsoluteDate -> Rvector6 -> bool -> IntegerArray
}.

(** The command-line arguments the loop reads, and the grid size. *)
Record Inputs : Type := {
  duration : Real;
  stepSize : Real;
  yaw180_flag : bool;
  numGridPoints : nat
}.

(** One line of the satellite states file and of the access file. *)
Record StatesRow : Type := {
  statesTime : Real;
  statesCart : Rvector6
}.

Record AccessRow : Type := {
  accessTime : Real;
  (** [true] is written as [",1"], [false] as [","] *)
  accessCells : list bool
}.

Section Main.

Context (E : Collaborators) (A : Inputs).

(** What the loop reads and writes. *)
Record LoopState : Type := {
  (** [*date], shared with [sat1] *)
  date : AbsoluteDate E;
  (** the state [sat1] holds since the last [Propagate] *)
  cartState : Rvector6;
  nSteps : Integer;
  satOut : list StatesRow;
  satAcc : list AccessRow
}.

(** Lines 410 to 430: [loopPoints] as it stands before the propagation. *)
Definition loopPointsAt (d : AbsoluteDate E) (c : Rvector6) : IntegerArray :=
  let loopPoints := CheckPointCoverage E d c false in
  if yaw180_flag A then
    let loopPoints_yaw180 := CheckPointCoverage E d c true in
    let loopPoints := loopPoints ++ loopPoints_yaw180 in
    let loopPoints := sort loopPoints in
    unique loopPoints
  else loopPoints.

(** Lines 453 to 456. *)
Definition accessRowOf (loopPoints : IntegerArray) : IntegerArray :=
  fold_left (fun accessRow p => assign accessRow p 1%Z) loopPoints
            (repeat 0%Z (numGridPoints A)).

(** [nSteps * stepSize] *)
Definition timeLabel (n : Integer) : Real := (Fin (IZR n) * stepSize A)%fp.

Definition accessLine (n : Integer) (loopPoints : IntegerArray) : AccessRow :=
  {| accessTime := timeLabel n;
     accessCells := map (fun c => (c =? 1)%Z) (accessRowOf loopPoints) |}.

(** The body of the [while] loop, lines 409 to 469. *)
Definition loopBody (s : LoopState) : LoopState :=
  let loopPoints := loopPointsAt (date s) (cartState s) in
  (* Propagate *)
  let date' := Advance E (date s) (stepSize A) in
  let cartState' := Propagate E date' in
  (* Write satellite states to file *)
  let satOut' :=
    satOut s ++ [{| statesTime := timeLabel (nSteps s);
                    statesCart := cartState' |}] in
  (* Write access data *)
  let satAcc' :=
    if (0 <? length loopPoints)%nat
    then satAcc s ++ [accessLine (nSteps s) loopPoints]
    else satAcc s in
  {| date := date'; cartState := cartState';
     nSteps := (nSteps s + 1)%Z;
     satOut := satOut'; satAcc := satAcc' |}.

(** The state at the loop head: [nSteps = 0], the spacecraft propagated
    to the initial date, both files holding their headers only. *)
Definition loopStart (date0 : AbsoluteDate E) : LoopState :=
  {| date := date0; cartState := Propagate E date0;
     nSteps := 0%Z; satOut := []; satAcc := [] |}.

(** [date->GetJulianDate() < startDate + duration] *)
Definition loopGuard (startDate : Real) (s : LoopState) : bool :=
  (GetJulianDate E (date s) <? startDate + duration A)%fp.

(** The [while] loop, with a bound on the number of iterations. *)
Fixpoint mainLoop (fuel : nat) (startDate : Real) (s : LoopState)
  : option LoopState :=
  if loopGuard startDate s then
    match fuel with
    | O => None
    | S fuel' => mainLoop fuel' startDate (loopBody s)
    end
  else Some s.

(** The loop state after [n] iterations and the date after [n] calls of
    [Advance]. *)
Definition afterSteps (n : nat) (date0 : AbsoluteDate E) : LoopState :=
  Nat.iter n loopBody (loopStart date0).

Definition epochAt (n : nat) (date0 : AbsoluteDate E) : AbsoluteDate E :=
  Nat.iter n (fun d => Advance E d (stepSize A)) date0.

(** What the two files hold after [n] iterations, tick by tick. *)
Definition statesLineOfTick (date0 : AbsoluteDate E) (k : nat) : StatesRow :=
  {| statesTime := timeLabel (Z.of_nat k);
     statesCart := Propagate E (epochAt (S k) date0) |}.

Definition loopPointsOfTick (date0 : AbsoluteDate E) (k : nat) : IntegerArray :=
  loopPointsAt (epochAt k date0) (Propagate E (epochAt k date0)).

Definition accessLinesOfTick (date0 : AbsoluteDate E) (k : nat)
  : list AccessRow :=
  match loopPointsOfTick date0 k with
  | [] => []
  | loopPoints => [accessLine (Z.of_nat k) loopPoints]
  end.

End Main.

(* ================================================================= *)
(** ** The rest of [DiscreteCoverageChecker] *)

(** Modelled from the spec: the operators of [Rmatrix33], which is not
    under src/.  The spec composes rotations by matrix multiplication:
    [Transpose] swaps rows and columns, [mulMM] is the product of two
    matrices and [mulMV] the product of a matrix and a vector. *)
Definition Transpose (m : Rmatrix33) : Rmatrix33 :=
  mkRmatrix33 (m00 m) (m10 m) (m20 m)
              (m01 m) (m11 m) (m21 m)
              (m02 m) (m12 m) (m22 m).

Definition mulMV (m : Rmatrix33) (v : Rvector3) : Rvector3 :=
  mkRvector3 (m00 m * e0 v + m01 m * e1 v + m02 m * e2 v)%fp
             (m10 m * e0 v + m11 m * e1 v + m12 m * e2 v)%fp
             (m20 m * e0 v + m21 m * e1 v + m22 m * e2 v)%fp.

Definition mulMM (a b : Rmatrix33) : Rmatrix33 :=
  mkRmatrix33
    (m00 a * m00 b + m01 a * m10 b + m02 a * m20 b)%fp
    (m00 a * m01 b + m01 a * m11 b + m02 a * m21 b)%fp
    (m00 a * m02 b + m01 a * m12 b + m02 a * m22 b)%fp
    (m10 a * m00 b + m11 a * m10 b + m12 a * m20 b)%fp
    (m10 a * m01 b + m11 a * m11 b + m12 a * m21 b)%fp
    (m10 a * m02 b + m11 a * m12 b + m12 a * m22 b)%fp
    (m20 a * m00 b + m21 a * m10 b + m22 a * m20 b)%fp
    (m20 a * m01 b + m21 a * m11 b + m22 a * m21 b)%fp
    (m20 a * m02 b + m21 a * m12 b + m22 a * m22 b)%fp.

Module Checker.

(** The collaborators of the checker that are not under src/: the central
    body, the coordinate conversions, the sensor and the spacecraft. *)
Record Env : Type := {
  (** [centralBody->GetRadius()] *)
  GetRadius : Real;
  (** [BodyFixedStateConverterUtil::CartesianToSpherical] *)
  CartesianToSpherical : Rvector3 -> Real -> Real -> Rvector3;
  (** [centralBody->FixedToTopocentric] *)
  FixedToTopocentric : Rvector3 -> Real -> Real -> Rvector3;
  (** [centralBody->GetBodyFixedState] *)
  GetBodyFixedState : Rvector3 -> Real -> Rvector3;
  (** [Rvector3::Normalize] *)
  Normalize : Rvector3 -> Rvector3;
  (** [sensor->getCartesianHeadings()] and its two siblings *)
  getCartesianHeadings : list Rvector3;
  getPoleHeadings : list Rvector3;
  getCornerHeadings : list Rvector3;
  (** [sensor->GetBodyToSensorMatrix(0)] *)
  GetBodyToSensorMatrix : Integer -> Rmatrix33;
  (** [sc->GetNadirTOBodyMatrix()] *)
  GetNadirTOBodyMatrix : Rmatrix33;
  (** [sc->GetBodyFixedToReference(state_ECF)] *)
  GetBodyFixedToReference : Rvector6 -> Rmatrix33;
  (** [sc->GetJulianDate()] and [sc->GetCartesianState()] *)
  GetJulianDate : Real;
  GetCartesianState : Rvector6
}.

Section Functions.

Context (env : Env).

(** Lines 3 to 14. *)
Definition unitVectorToClockCone (cartesianHeadings : list Rvector3)
  : list AnglePair :=
  map (fun heading =>
         (* Returns Rvector3 of lat,lon,H *)
         let spherical := CartesianToSpherical env heading (Fin 1) (Fin 1) in
         (e1 spherical, (pi / Fin 2 - e0 spherical)%fp))
      cartesianHeadings.

(** Lines 116 to 134. *)
Definition getEarthFixedState (jd : Real) (state_I : Rvector6) : Rvector6 :=
  let inertialPos := mkRvector3 (s0 state_I) (s1 state_I) (s2 state_I) in
  let inertialVel := mkRvector3 (s3 state_I) (s4 state_I) (s5 state_I) in
  let centralBodyFixedPos := GetBodyFixedState env inertialPos jd in
  let centralBodyFixedVel := GetBodyFixedState env inertialVel jd in
  mkRvector6 (e0 centralBodyFixedPos) (e1 centralBodyFixedPos)
             (e2 centralBodyFixedPos)
             (e0 centralBodyFixedVel) (e1 centralBodyFixedVel)
             (e2 centralBodyFixedVel).

(** [SA_N*NB*BS], the matrix of lines 157 to 165 and 214 to 222. *)
Definition sensorToAccess (state_ECF : Rvector6) : Rmatrix33 :=
  let BS := Transpose (GetBodyToSensorMatrix env 0%Z) in
  let NB := Transpose (GetNadirTOBodyMatrix env) in
  let SA_N :=
    getNadirToSpacecraftAccessMatrix (GetRadius env) (CartesianToSpherical env)
      (FixedToTopocentric env) (Normalize env) state_ECF in
  mulMM (mulMM SA_N NB) BS.

(** The body shared by [checkIntersection(state_ECF)] and
    [checkCornerIntersection(state_ECF)]: the two differ in the heading
    set they read from the sensor. *)
Definition projectHeadings (headings : list Rvector3) (state_ECF : Rvector6)
  : list AnglePair :=
  (* Both in ECF coordinates *)
  let pos := mkRvector3 (s0 state_ECF) (s1 state_ECF) (s2 state_ECF) in
  let sphericalPos := CartesianToSpherical env pos (Fin 1) (GetRadius env) in
  (* Change heading basis to 'Spacecraft Access (SA)' frame *)
  let cartesianHeadings := map (mulMV (sensorToAccess state_ECF)) headings in
  let clockConeHeadings := unitVectorToClockCone cartesianHeadings in
  map (fun clockCone =>
         projectionAlg (GetRadius env) (fst clockCone) (snd clockCone)
           sphericalPos)
      clockConeHeadings.

(** Lines 144 to 176. *)
Definition checkIntersectionAt (state_ECF : Rvector6) : list AnglePair :=
  projectHeadings (getCartesianHeadings env) state_ECF.

(** Lines 136 to 142. *)
Definition checkIntersection : list AnglePair :=
  let date := GetJulianDate env in
  let state_I := GetCartesianState env in
  let state_ECF := getEarthFixedState date state_I in
  checkIntersectionAt state_ECF.

(** Lines 201 to 233. *)
Definition checkCornerIntersection (state_ECF : Rvector6) : list AnglePair :=
  projectHeadings (getCornerHeadings env) state_ECF.

(** Lines 178 to 199. *)
Definition checkPoleIntersection (state_ECF : Rvector6) : list Rvector3 :=
  let BS := Transpose (GetBodyToSensorMatrix env 0%Z) in
  let NB := Transpose (GetNadirTOBodyMatrix env) in
  let ECF_N := Transpose (GetBodyFixedToReference env state_ECF) in
  (* Change heading basis to Earth Fixed frame, re-normalize *)
  map (fun poleHeading =>
         Normalize env (mulMV (mulMM (mulMM ECF_N NB) BS) poleHeading))
      (getPoleHeadings env).

End Functions.

End Checker.

(* ================================================================= *)
(** ** The rest of orbitpropcov.cpp *)

Definition RealArray : Type := list Real.

(** The inner loop of [readCovGridFile], lines 79 to 86: the fields of a
    line.  [getline(ss, substr, ',')] reads up to the next comma or to
    the end of the line, and the stream stays [good()] until a read has
    met the end; so a line with [n] commas gives [n + 1] fields, the
    last one empty when the line ends in a comma (and the empty line
    gives one empty field). *)
Fixpoint vecStrOutOf (line : String.string) : list String.string :=
  match line with
  | String.EmptyString => [String.EmptyString]
  | String.String c rest =>
      if Ascii.eqb c ","%char then String.EmptyString :: vecStrOutOf rest
      else match vecStrOutOf rest with
           | substr :: others => String.String c substr :: others
           | [] => [String.String c String.EmptyString]
           end
  end.

(** The number of commas of a line. *)
Fixpoint commas (line : String.string) : nat :=
  match line with
  | String.EmptyString => O
  | String.String c rest =>
      if Ascii.eqb c ","%char then S (commas rest) else commas rest
  end.

(** The checks of the arguments, lines 154 to 199: [true] when [main]
    goes on, [false] when it calls [exit(1)].  The four arrays are the
    comma-separated arguments as converted by [oci_utils], which is not
    under src/. *)
Definition checkArguments (argc : Integer)
  (epoch senOrien senClock senCone : RealArray) (senType : String.string)
  : bool :=
  if negb (argc =? 18)%Z then false
  else if negb (length epoch =? 6)%nat then false
  else if negb (length senOrien =? 6)%nat then false
  else if (length senCone =? 0)%nat then false
  else if negb (String.eqb senType "Conical")
          && negb (length senCone =? length senClock)%nat then false
  else true.

(** The two sensor pointers of [main]. *)
Inductive SensorPointer : Type := conicalSensor | customSensor.

(** Lines 322 to 337: the pointer that receives a new sensor, which is
    then added to the spacecraft; [None] is the branch of the warning. *)
Definition createdSensor (senType : String.string) : option SensorPointer :=
  if String.eqb senType "CONICAL" then Some conicalSensor
  else if String.eqb senType "RECTANGULAR" || String.eqb senType "CUSTOM"
       then Some customSensor
  else None.

(** Lines 497 to 501: the pointer handed to [delete]. *)
Definition deletedSensor (senType : String.string) : option SensorPointer :=
  if String.eqb senType "Conical" then Some conicalSensor
  else if String.eqb senType "Custom" || String.eqb senType "Rectangular"
       then Some customSensor
  else None.

(* ================================================================= *)
(** ** Sample inputs *)

(** A spacecraft 600 km above the equator of a sphere of radius 6378 km. *)
Definition pos600 : Rvector3 := mkRvector3 (Fin 0) (Fin 0) (Fin 600).

(** A body-fixed state on the x axis, 6978 km from the centre, and the
    south-east-zenith components of a vector there: at latitude 0 and
    longitude 0 south is [-z], east is [y] and the zenith is [x]. *)
Definition stateOnXAxis (vx vy vz : R) : Rvector6 :=
  mkRvector6 (Fin 6978) (Fin 0) (Fin 0) (Fin vx) (Fin vy) (Fin vz).

Definition sphericalOnXAxis (pos : Rvector3) (flattening radius : Real)
  : Rvector3 :=
  mkRvector3 (Fin 0) (Fin 0) (e0 pos - radius)%fp.

Definition topocentricOnXAxis (v : Rvector3) (lat lon : Real) : Rvector3 :=
  mkRvector3 (- e2 v)%fp (e1 v) (e0 v).

(** A mission on a grid of two points in which the date counts ticks and
    grid point 0 is seen at every tick but the second. *)
Definition tickCollaborators : Collaborators :=
  {| AbsoluteDate := Z;
     GetJulianDate := fun d => Fin (IZR d);
     Advance := fun d _ => (d + 1)%Z;
     Propagate := fun d => mkRvector6 (Fin (IZR d)) (Fin 0) (Fin 0)
                                      (Fin 0) (Fin 0) (Fin 0);
     CheckPointCoverage := fun d _ yaw =>
       if (d =? 1)%Z then [] else if yaw then [1; 0]%Z else [1]%Z |}.

Definition tickInputs : Inputs :=
  {| duration := Fin 3; stepSize := Fin 1; yaw180_flag := true;
     numGridPoints := 2 |}.

(** A checker environment for trying the functions: the sensor is
    mounted along the body axes, the body along the nadir frame, and the
    spherical conversion is one that is exact for the vectors along the
    x and z axes that the examples use (latitude [z * pi/2], longitude
    [y], height [x - radius]). *)
Definition identity33 : Rmatrix33 :=
  mkRmatrix33 (Fin 1) (Fin 0) (Fin 0)
              (Fin 0) (Fin 1) (Fin 0)
              (Fin 0) (Fin 0) (Fin 1).

Definition sampleEnv : Checker.Env :=
  {| Checker.GetRadius := Fin 6378;
     Checker.CartesianToSpherical := fun v _ radius =>
       mkRvector3 (e2 v * Fin (PI / 2))%fp (e1 v) (e0 v - radius)%fp;
     Checker.FixedToTopocentric := topocentricOnXAxis;
     Checker.GetBodyFixedState := fun v _ => v;
     Checker.Normalize := unitVector;
     Checker.getCartesianHeadings :=
       [mkRvector3 (Fin 0) (Fin 0) (Fin 1); mkRvector3 (Fin 0) (Fin 1) (Fin 0)];
     Checker.getPoleHeadings := [mkRvector3 (Fin 0) (Fin 3) (Fin 4)];
     Checker.getCornerHeadings := [];
     Checker.GetBodyToSensorMatrix := fun _ => identity33;
     Checker.GetNadirTOBodyMatrix := identity33;
     Checker.GetBodyFixedToReference := fun _ => identity33;
     Checker.GetJulianDate := Fin 0;
     Checker.GetCartesianState := stateOnXAxis 0 7 0 |}.

(** A mission whose date does not move: [Advance] leaves it as it is. *)
Definition stuckCollaborators : Collaborators :=
  {| AbsoluteDate := Z;
     GetJulianDate := fun d => Fin (IZR d);
     Advance := fun d _ => d;
     Propagate := fun d => mkRvector6 (Fin (IZR d)) (Fin 0) (Fin 0)
                                      (Fin 0) (Fin 0) (Fin 0);
     CheckPointCoverage := fun _ _ _ => [] |}.

Definition stuckInputs : Inputs :=
  {| duration := Fin 1; stepSize := Fin 0; yaw180_flag := false;
     numGridPoints := 0 |}.

(** A mission of no duration. *)
Definition noDurationInputs : Inputs :=
  {| duration := Fin 0; stepSize := Fin 1; yaw180_flag := false;
     numGridPoints := 2 |}.

(* ================================================================= *)
(** * Properties *)

(** ** Arithmetic of [Real] *)

Lemma fadd_Fin (x y : R) : (Fin x + Fin y)%fp = Fin (x + y).
Proof. reflexivity. Qed.

Lemma fsub_Fin (x y : R) : (Fin x - Fin y)%fp = Fin (x - y).
Proof. reflexivity. Qed.

Lemma fmul_Fin (x y : R) : (Fin x * Fin y)%fp = Fin (x * y).
Proof. reflexivity. Qed.

Lemma fneg_Fin (x : R) : (- Fin x)%fp = Fin (- x).
Proof. reflexivity. Qed.

Lemma fsin_Fin (x : R) : fsin (Fin x) = Fin (sin x).
Proof. reflexivity. Qed.

Lemma fcos_Fin (x : R) : fcos (Fin x) = Fin (cos x).
Proof. reflexivity. Qed.

Create Rewrite HintDb fp.

#[global] Hint Rewrite fadd_Fin fsub_Fin fmul_Fin fneg_Fin fsin_Fin fcos_Fin
  : fp.

Lemma fdiv_Fin (x y : R) : y <> 0 -> (Fin x / Fin y)%fp = Fin (x / y).
Proof.
  intros Hy. unfold fdiv. destruct (Req_dec_T y 0); [contradiction | reflexivity].
Qed.

Lemma fdiv_zero (a : Real) : isFinite (a / Fin 0)%fp = false.
Proof.
  destruct a as [x | s | ]; simpl; trivial.
  destruct (Req_dec_T 0 0) as [_ | N]; [ | now elim N].
  now destruct (Req_dec_T x 0).
Qed.

Lemma facos_Fin (x : R) : -1 <= x <= 1 -> facos (Fin x) = Fin (acos x).
Proof.
  intros [Hl Hu]. unfold facos.
  destruct (Rle_dec (-1) x); [ | contradiction].
  destruct (Rle_dec x 1); [reflexivity | contradiction].
Qed.

Lemma facos_above (x : R) : 1 < x -> facos (Fin x) = NaN.
Proof.
  intros Hx. unfold facos.
  destruct (Rle_dec (-1) x); trivial.
  destruct (Rle_dec x 1); trivial. lra.
Qed.

Lemma facos_not_finite (a : Real) : isFinite a = false -> facos a = NaN.
Proof. destruct a; simpl; [discriminate | reflexivity | reflexivity]. Qed.

Lemma half_pi : (pi / Fin 2)%fp = Fin (PI / 2).
Proof. unfold pi. apply fdiv_Fin. lra. Qed.

Lemma fltb_Fin_true (x y : R) : x < y -> (Fin x <? Fin y)%fp = true.
Proof. intros. unfold fltb. now destruct (Rlt_dec x y). Qed.

Lemma fltb_Fin_false (x y : R) : ~ x < y -> (Fin x <? Fin y)%fp = false.
Proof. intros. unfold fltb. now destruct (Rlt_dec x y). Qed.

Lemma fltb_Fin_inv (a : Real) (y : R) :
  (Fin y <? a)%fp = true -> a = Inf false \/ exists x, a = Fin x /\ y < x.
Proof.
  destruct a as [x | [ | ] | ]; simpl; try discriminate.
  - destruct (Rlt_dec y x); [ | discriminate]. intros _. right. now exists x.
  - now left.
Qed.

(** [NaN] is absorbing. *)
Lemma fsub_NaN_r (a : Real) : (a - NaN)%fp = NaN.
Proof. now destruct a. Qed.

Lemma fadd_NaN_r (a : Real) : (a + NaN)%fp = NaN.
Proof. now destruct a. Qed.

Lemma fmul_NaN_r (a : Real) : (a * NaN)%fp = NaN.
Proof. now destruct a. Qed.

Lemma fdiv_NaN_r (a : Real) : (a / NaN)%fp = NaN.
Proof. now destruct a. Qed.

(** ** Trigonometric bounds used by the projection *)

Lemma trig_sq (x : R) : sin x * sin x + cos x * cos x = 1.
Proof. generalize (sin2_cos2 x). unfold Rsqr. trivial. Qed.

(** The argument of the first [acos] is a cosine of an angle on the
    sphere, hence in [-1, 1]. *)
Lemma latPPrime_arg_bound (lam phi k : R) :
  -1 <= cos lam * sin phi + sin lam * cos phi * cos k <= 1.
Proof.
  pose proof (trig_sq lam) as Hl. pose proof (trig_sq phi) as Hp.
  pose proof (trig_sq k) as Hk.
  set (x := cos lam) in *. set (y := sin lam) in *.
  set (p := sin phi) in *. set (q := cos phi) in *.
  set (w := cos k) in *. set (v := sin k) in *.
  assert (Lagrange : (x * p + y * q * w) * (x * p + y * q * w)
                     + (x * q * w - y * p) * (x * q * w - y * p)
                     = (x * x + y * y) * (p * p + q * q * (w * w))) by ring.
  assert (Hsq : (x * p + y * q * w) * (x * p + y * q * w) <= 1).
  { pose proof (Rle_0_sqr (x * q * w - y * p)) as A.
    pose proof (Rle_0_sqr (q * v)) as B. unfold Rsqr in A, B.
    replace (x * x + y * y) with 1 in Lagrange by lra.
    nra. }
  split; nra.
Qed.

(** Sine and cosine of the real-valued intersection latitude. *)
Lemma sin_RealChain_latP (lam k phi : R) :
  sin (RealChain.latP lam k phi)
  = cos lam * sin phi + sin lam * cos phi * cos (- k).
Proof.
  unfold RealChain.latP. rewrite sin_shift.
  apply cos_acos, latPPrime_arg_bound.
Qed.

Lemma cos_RealChain_latP_nonneg (lam k phi : R) :
  0 <= cos (RealChain.latP lam k phi).
Proof.
  unfold RealChain.latP.
  pose proof (acos_bound (cos lam * sin phi + sin lam * cos phi * cos (- k))).
  apply cos_ge_0; lra.
Qed.

(** The quotient under the second [acos] is the cosine of a longitude
    difference whenever neither latitude is polar. *)
Lemma deltaL_arg_bound (lam k phi : R) :
  cos phi <> 0 -> cos (RealChain.latP lam k phi) <> 0 ->
  -1 <= (cos lam - sin phi * sin (RealChain.latP lam k phi))
        / (cos phi * cos (RealChain.latP lam k phi)) <= 1.
Proof.
  intros Hphi HP.
  pose proof (sin_RealChain_latP lam k phi) as Hs.
  pose proof (trig_sq (RealChain.latP lam k phi)) as HtP.
  pose proof (trig_sq lam) as Hl. pose proof (trig_sq phi) as Hp.
  pose proof (trig_sq (- k)) as Hk.
  set (cP := cos (RealChain.latP lam k phi)) in *.
  set (sP := sin (RealChain.latP lam k phi)) in *.
  set (x := cos lam) in *. set (y := sin lam) in *.
  set (p := sin phi) in *. set (q := cos phi) in *.
  set (w := cos (- k)) in *. set (v := sin (- k)) in *.
  assert (Hnum : x - p * sP = q * (x * q - p * y * w)).
  { rewrite Hs. replace x with (x * (p * p + q * q)) at 1 by (rewrite Hp; ring).
    ring. }
  assert (Hd : q * cP <> 0) by (apply Rmult_integral_contrapositive; tauto).
  set (z := (x - p * sP) / (q * cP)).
  assert (Hz : z * cP = x * q - p * y * w).
  { unfold z. rewrite Hnum. field. tauto. }
  assert (Lagrange : (x * q - p * y * w) * (x * q - p * y * w) + sP * sP
                     = x * x * (p * p + q * q)
                       + y * y * (w * w) * (p * p + q * q)).
  { rewrite Hs. ring. }
  rewrite Hp in Lagrange.
  assert (Hzz : z * z * (cP * cP) <= cP * cP).
  { replace (z * z * (cP * cP)) with ((z * cP) * (z * cP)) by ring.
    rewrite Hz.
    pose proof (Rle_0_sqr (y * v)) as B. unfold Rsqr in B. nra. }
  assert (HcP : 0 < cP * cP).
  { pose proof (Rle_0_sqr cP) as B. unfold Rsqr in B.
    destruct B as [B | B]; [exact B | ].
    symmetry in B. apply Rmult_integral in B. tauto. }
  assert (z * z <= 1) by nra.
  split; nra.
Qed.

Section RealSteps.

Variables (r clock cone : Real) (pos : Rvector3).
Variables (lam k phi : R).
Hypothesis Hlam : lambda r cone pos = Fin lam.
Hypothesis Hk : clock = Fin k.
Hypothesis Hphi : e0 pos = Fin phi.

Lemma latP_real : latP r clock cone pos = Fin (RealChain.latP lam k phi).
Proof.
  unfold latP, latPPrime, phiE. rewrite Hlam, Hk, Hphi, half_pi.
  autorewrite with fp.
  rewrite facos_Fin by apply latPPrime_arg_bound. reflexivity.
Qed.

Lemma deltaL_real :
  cos phi <> 0 -> cos (RealChain.latP lam k phi) <> 0 ->
  deltaL r clock cone pos = Fin (RealChain.deltaL lam k phi).
Proof.
  intros H1 H2. unfold deltaL. rewrite latP_real, Hlam, Hphi.
  autorewrite with fp.
  rewrite fdiv_Fin by (apply Rmult_integral_contrapositive; tauto).
  rewrite facos_Fin by (apply (deltaL_arg_bound lam k phi); assumption).
  reflexivity.
Qed.

Lemma lonP_real (l : R) :
  e1 pos = Fin l ->
  cos phi <> 0 -> cos (RealChain.latP lam k phi) <> 0 ->
  lonP r clock cone pos = Fin (RealChain.lonP lam k phi l).
Proof.
  intros Hl H1 H2. unfold lonP, RealChain.lonP.
  rewrite (deltaL_real H1 H2), Hl, Hk. unfold pi, fltb.
  destruct (Rlt_dec k PI); autorewrite with fp; reflexivity.
Qed.

End RealSteps.

(** ** The horizon angle and the earth-central angle *)

Lemma sinRho_real (rho h : R) (pos : Rvector3) :
  e2 pos = Fin h -> rho + h <> 0 ->
  sinRho (Fin rho) pos = Fin (RealChain.sinRho rho h).
Proof.
  intros Hh Hne. unfold sinRho. rewrite Hh. autorewrite with fp.
  now rewrite fdiv_Fin.
Qed.

Lemma epsilon_real (rho h c : R) (pos : Rvector3) :
  e2 pos = Fin h -> rho <> 0 -> rho + h <> 0 ->
  -1 <= sin c / RealChain.sinRho rho h <= 1 ->
  epsilon (Fin rho) (Fin c) pos = Fin (RealChain.epsilon rho h c).
Proof.
  intros Hh Hr Hne Hb. unfold epsilon.
  rewrite (sinRho_real rho h pos Hh Hne). autorewrite with fp.
  rewrite fdiv_Fin.
  - now rewrite facos_Fin.
  - unfold RealChain.sinRho. intros E.
    apply Rmult_integral in E. destruct E as [E | E]; [tauto | ].
    now apply Rinv_neq_0_compat in E.
Qed.

Lemma lambda_of_epsilon (r : Real) (c e : R) (pos : Rvector3) :
  epsilon r (Fin c) pos = Fin e ->
  lambda r (Fin c) pos = Fin (PI / 2 - c - e).
Proof.
  intros He. unfold lambda. rewrite He, half_pi. now autorewrite with fp.
Qed.

Lemma lambda_real (rho h c : R) (pos : Rvector3) :
  e2 pos = Fin h -> rho <> 0 -> rho + h <> 0 ->
  -1 <= sin c / RealChain.sinRho rho h <= 1 ->
  lambda (Fin rho) (Fin c) pos = Fin (RealChain.lambda rho h c).
Proof.
  intros Hh Hr Hne Hb. unfold RealChain.lambda.
  apply lambda_of_epsilon. now apply epsilon_real.
Qed.

(** Beyond the horizon the first [acos] has a domain error. *)
Lemma epsilon_beyond_horizon (r cone : Real) (pos : Rvector3) :
  (Fin 0 <? sinRho r pos)%fp = true ->
  (sinRho r pos <? fsin cone)%fp = true ->
  epsilon r cone pos = NaN.
Proof.
  intros Hpos Hlt. unfold epsilon.
  destruct (fltb_Fin_inv _ _ Hpos) as [E | [x [E Hx]]]; rewrite E in *.
  - destruct cone as [c | [ | ] | ]; simpl in Hlt; discriminate.
  - destruct cone as [c | [ | ] | ]; simpl in Hlt; try discriminate.
    autorewrite with fp. set (y := sin c) in *.
    destruct (Rlt_dec x y) as [Hxy | ]; [ | discriminate].
    rewrite fdiv_Fin by lra.
    apply facos_above.
    apply Rmult_lt_reg_r with x; [exact Hx | ].
    unfold Rdiv. rewrite Rmult_assoc, Rinv_l by lra. lra.
Qed.

(** Once [epsilon] is [NaN], so is every later step. *)
Lemma projectionAlg_epsilon_NaN (r clock cone : Real) (pos : Rvector3) :
  epsilon r cone pos = NaN ->
  projectionAlg r clock cone pos = (NaN, NaN).
Proof.
  intros He.
  assert (Hlam : lambda r cone pos = NaN).
  { unfold lambda. rewrite He. apply fsub_NaN_r. }
  assert (HP : latP r clock cone pos = NaN).
  { unfold latP, latPPrime. rewrite Hlam. simpl. apply fsub_NaN_r. }
  assert (Hd : deltaL r clock cone pos = NaN).
  { unfold deltaL. rewrite Hlam. reflexivity. }
  unfold projectionAlg, lonP. rewrite HP, Hd.
  destruct (clock <? pi)%fp; [rewrite fadd_NaN_r | rewrite fsub_NaN_r];
    reflexivity.
Qed.

(** The division of step 6 with a zero or undefined denominator. *)
Lemma deltaL_bad_denominator (r clock cone : Real) (pos : Rvector3) :
  (fcos (e0 pos) * fcos (latP r clock cone pos))%fp = Fin 0
  \/ (fcos (e0 pos) * fcos (latP r clock cone pos))%fp = NaN ->
  deltaL r clock cone pos = NaN.
Proof.
  intros Hden. unfold deltaL.
  destruct Hden as [Hden | Hden]; rewrite Hden.
  - apply facos_not_finite, fdiv_zero.
  - now rewrite fdiv_NaN_r.
Qed.

(** Inside the horizon and away from the poles no step of
    [projectionAlg] leaves the reals. *)
Lemma projectionAlg_real (rho h k c phi l : R) :
  rho <> 0 -> rho + h <> 0 ->
  -1 <= sin c / RealChain.sinRho rho h <= 1 ->
  cos phi <> 0 ->
  cos (RealChain.latP (RealChain.lambda rho h c) k phi) <> 0 ->
  projectionAlg (Fin rho) (Fin k) (Fin c) (mkRvector3 (Fin phi) (Fin l) (Fin h))
  = (Fin (RealChain.latP (RealChain.lambda rho h c) k phi),
     Fin (RealChain.lonP (RealChain.lambda rho h c) k phi l)).
Proof.
  intros Hr Hd Hb Hcphi HP.
  set (pos := mkRvector3 (Fin phi) (Fin l) (Fin h)).
  assert (Hlam : lambda (Fin rho) (Fin c) pos
                 = Fin (RealChain.lambda rho h c)).
  { apply lambda_real; [reflexivity | exact Hr | exact Hd | exact Hb]. }
  unfold projectionAlg. f_equal.
  - now apply latP_real.
  - now apply lonP_real.
Qed.

(** ** Monotonicity of the earth-central angle in the cone angle *)

Lemma square_le_inv (a b : R) : 0 <= a -> 0 <= b -> a * a <= b * b -> a <= b.
Proof.
  intros Ha Hb Hab.
  destruct (Rle_lt_dec a b) as [ | Hlt]; [assumption | exfalso]. nra.
Qed.

(** The algebraic core: with [U1], [U2] the cosines that belong to the
    sines [t * s1], [t * s2] and [C1], [C2] those that belong to [s1],
    [s2], the difference formula gives no less for the former. *)
Lemma sine_difference_scaled (t s1 s2 U1 U2 C1 C2 : R) :
  1 <= t -> 0 <= s1 <= s2 ->
  0 <= U1 -> 0 <= U2 -> 0 <= C1 -> 0 <= C2 ->
  U1 * U1 = 1 - (t * s1) * (t * s1) ->
  U2 * U2 = 1 - (t * s2) * (t * s2) ->
  C1 * C1 = 1 - s1 * s1 ->
  C2 * C2 = 1 - s2 * s2 ->
  s2 * C1 - C2 * s1 <= s2 * U1 - U2 * s1.
Proof.
  intros Ht Hs HU1 HU2 HC1 HC2 EU1 EU2 EC1 EC2.
  assert (Ht2 : 1 <= t * t) by nra.
  assert (Hs1 : s1 * s1 <= s2 * s2) by nra.
  assert (Ht1 : s1 * s1 <= (t * s1) * (t * s1)).
  { replace (t * s1 * (t * s1)) with (t * t * (s1 * s1)) by ring.
    pose proof (Rle_0_sqr s1) as Q. unfold Rsqr in Q. nra. }
  assert (Ht2' : s2 * s2 <= (t * s2) * (t * s2)).
  { replace (t * s2 * (t * s2)) with (t * t * (s2 * s2)) by ring.
    pose proof (Rle_0_sqr s2) as Q. unfold Rsqr in Q. nra. }
  assert (Hts : (t * s1) * (t * s1) <= (t * s2) * (t * s2)).
  { replace (t * s1 * (t * s1)) with (t * t * (s1 * s1)) by ring.
    replace (t * s2 * (t * s2)) with (t * t * (s2 * s2)) by ring. nra. }
  assert (HUC1 : U1 <= C1) by (apply square_le_inv; lra).
  assert (HUC2 : U2 <= C2) by (apply square_le_inv; lra).
  assert (HU21 : U2 <= U1) by (apply square_le_inv; lra).
  assert (HC21 : C2 <= C1) by (apply square_le_inv; lra).
  set (A := s2 * U1 - s1 * U2).
  set (B := s2 * U1 + s1 * U2).
  set (E := s2 * C1 - s1 * C2).
  set (D := s2 * C1 + s1 * C2).
  assert (HA : 0 <= A) by (unfold A; nra).
  assert (HE : 0 <= E) by (unfold E; nra).
  assert (HB : 0 <= B) by (unfold B; nra).
  assert (HBD : B <= D) by (unfold B, D; nra).
  assert (HAB : A * B = E * D).
  { unfold A, B, E, D.
    replace ((s2 * U1 - s1 * U2) * (s2 * U1 + s1 * U2))
      with (s2 * s2 * (U1 * U1) - s1 * s1 * (U2 * U2)) by ring.
    replace ((s2 * C1 - s1 * C2) * (s2 * C1 + s1 * C2))
      with (s2 * s2 * (C1 * C1) - s1 * s1 * (C2 * C2)) by ring.
    rewrite EU1, EU2, EC1, EC2. ring. }
  assert (HEA : E <= A).
  { destruct (Rle_lt_dec E A) as [ | Hlt]; [assumption | exfalso].
    assert (HB0 : B = 0) by nra.
    assert (HA0 : A = 0) by (unfold A, B in *; nra).
    assert (HED : E <= D) by (unfold E, D; nra).
    rewrite HB0, Rmult_0_r in HAB. nra. }
  unfold A, E in HEA. lra.
Qed.

Lemma asin_le (u v : R) : -1 <= u -> u <= v -> v <= 1 -> asin u <= asin v.
Proof.
  intros Hu Huv Hv.
  destruct (Rle_lt_dec (asin u) (asin v)) as [ | Hlt]; [assumption | exfalso].
  pose proof (asin_bound u). pose proof (asin_bound v).
  assert (Hs : sin (asin v) < sin (asin u))
    by (apply sin_increasing_1; lra).
  rewrite !sin_asin in Hs by lra. lra.
Qed.

Lemma RealChain_sinRho_range (rho h : R) :
  0 < rho -> 0 <= h -> 0 < RealChain.sinRho rho h <= 1.
Proof.
  intros Hr Hh. unfold RealChain.sinRho. split.
  - apply Rdiv_lt_0_compat; lra.
  - apply Rmult_le_reg_r with (rho + h); [lra | ].
    unfold Rdiv. rewrite Rmult_assoc, Rinv_l by lra. lra.
Qed.

(** Inside the horizon the quotient under the first [acos] lies in
    [[0, 1]]. *)
Lemma horizon_quotient_range (sigma c : R) :
  0 < sigma <= 1 -> 0 <= c <= asin sigma ->
  0 <= sin c /\ sin c <= sin c / sigma <= 1 /\ c <= PI / 2.
Proof.
  intros Hsig Hc.
  pose proof (asin_bound sigma) as Hab.
  assert (Hc2 : c <= PI / 2) by lra.
  assert (H0 : 0 <= sin c) by (apply sin_ge_0; pose proof PI_RGT_0; lra).
  assert (Hs : sin c <= sigma).
  { rewrite <- (sin_asin sigma) by lra.
    destruct (proj2 Hc) as [Hlt | Heq]; [ | rewrite Heq; lra].
    left. apply sin_increasing_1; lra. }
  assert (Hinv : 1 <= / sigma).
  { rewrite <- Rinv_1. apply Rinv_le_contravar; lra. }
  repeat split; trivial.
  - unfold Rdiv. nra.
  - apply Rmult_le_reg_r with sigma; [lra | ].
    unfold Rdiv. rewrite Rmult_assoc, Rinv_l by lra. lra.
Qed.

(** Inside the horizon, [sin (c2 - c1) <= sigma * sin (a2 - a1)] where
    [a] is the angle whose sine is [sin c / sigma]. *)
Lemma sine_gap (sigma c1 c2 : R) :
  0 < sigma <= 1 -> 0 <= c1 <= c2 -> c2 <= asin sigma ->
  sin (c2 - c1)
  <= sigma * sin (asin (sin c2 / sigma) - asin (sin c1 / sigma)).
Proof.
  intros Hsig Hc1 Hc2.
  destruct (horizon_quotient_range sigma c1 Hsig) as (H01 & Hq1 & Hp1);
    [lra | ].
  destruct (horizon_quotient_range sigma c2 Hsig) as (H02 & Hq2 & Hp2);
    [lra | ].
  set (u1 := sin c1 / sigma) in *. set (u2 := sin c2 / sigma) in *.
  pose proof (asin_bound u1) as Ha1. pose proof (asin_bound u2) as Ha2.
  assert (Hs12 : sin c1 <= sin c2).
  { destruct (proj2 Hc1) as [Hlt | Heq]; [ | rewrite Heq; lra].
    left. apply sin_increasing_1; lra. }
  assert (E1 : u1 = / sigma * sin c1) by (unfold u1; field; lra).
  assert (E2 : u2 = / sigma * sin c2) by (unfold u2; field; lra).
  rewrite !sin_minus, !sin_asin by lra.
  assert (S1 : sigma * u1 = sin c1) by (unfold u1; field; lra).
  assert (S2 : sigma * u2 = sin c2) by (unfold u2; field; lra).
  replace (sigma * (u2 * cos (asin u1) - cos (asin u2) * u1))
    with (sigma * u2 * cos (asin u1) - cos (asin u2) * (sigma * u1)) by ring.
  rewrite S1, S2.
  apply (sine_difference_scaled (/ sigma)).
  - rewrite <- Rinv_1. apply Rinv_le_contravar; lra.
  - lra.
  - apply cos_ge_0; lra.
  - apply cos_ge_0; lra.
  - apply cos_ge_0; lra.
  - apply cos_ge_0; lra.
  - rewrite <- E1.
    pose proof (trig_sq (asin u1)) as T. rewrite sin_asin in T by lra. lra.
  - rewrite <- E2.
    pose proof (trig_sq (asin u2)) as T. rewrite sin_asin in T by lra. lra.
  - pose proof (trig_sq c1). lra.
  - pose proof (trig_sq c2). lra.
Qed.

(** On the meridian plane through the east point ([clock = pi/2]) a
    spacecraft over the equator sees the equator. *)
Lemma RealChain_latP_equator (lam : R) : RealChain.latP lam (PI / 2) 0 = 0.
Proof.
  unfold RealChain.latP. rewrite sin_0, cos_0, cos_neg, cos_PI2.
  replace (cos lam * 0 + sin lam * 1 * 0) with 0 by ring.
  rewrite acos_0. lra.
Qed.

(* ================================================================= *)
(** ** Claims on [projectionAlg] *)


Lemma sinRho_pos600 : sinRho (Fin 6378) pos600 = Fin (6378 / (6378 + 600)).
Proof. apply (sinRho_real 6378 600 pos600); [reflexivity | lra]. Qed.

Lemma horizon_pos600 :
  (Fin 0 <? sinRho (Fin 6378) pos600)%fp = true
  /\ (sinRho (Fin 6378) pos600 <? fsin (Fin (PI / 2)))%fp = true.
Proof.
  rewrite sinRho_pos600. autorewrite with fp. rewrite sin_PI2.
  split; apply fltb_Fin_true; lra.
Qed.



Lemma sin_PI6_le_sinRho600 :
  (fsin (Fin (PI / 6)) <=? sinRho (Fin 6378) pos600)%fp = true.
Proof.
  rewrite sinRho_pos600. autorewrite with fp. rewrite sin_PI6.
  unfold fleb. destruct (Rle_dec (1 / 2) (6378 / (6378 + 600))) as [ | N];
    [reflexivity | exfalso; apply N; lra].
Qed.

(** The earth-central angle when the computed [sinRho] is the number
    [sigma] and the quotient under the first [acos] is in its domain. *)
Lemma lambda_sigma (r : Real) (pos : Rvector3) (sigma c : R) :
  sinRho r pos = Fin sigma -> 0 < sigma ->
  -1 <= sin c / sigma <= 1 ->
  lambda r (Fin c) pos = Fin (PI / 2 - c - acos (sin c / sigma)).
Proof.
  intros Hs Hsig Hb. apply lambda_of_epsilon.
  unfold epsilon. rewrite Hs. autorewrite with fp.
  rewrite fdiv_Fin by lra. now apply facos_Fin.
Qed.

(** A cone angle of the first quadrant whose sine does not exceed
    [sigma] is at most the horizon angle [asin sigma]. *)
Lemma horizon_angle (sigma c : R) :
  sigma <= 1 -> 0 <= c <= PI / 2 -> sin c <= sigma -> c <= asin sigma.
Proof.
  intros Hsig Hc Hs.
  rewrite <- (asin_sin c) by lra.
  pose proof (SIN_bound c). apply asin_le; lra.
Qed.

Lemma lambda_monotone_sigma (sigma c1 c2 : R) :
  0 < sigma <= 1 -> 0 <= c1 <= c2 -> c2 <= asin sigma ->
  PI / 2 - c1 - acos (sin c1 / sigma) <= PI / 2 - c2 - acos (sin c2 / sigma)
  /\ (sigma < 1 -> c1 < c2 ->
      PI / 2 - c1 - acos (sin c1 / sigma)
      < PI / 2 - c2 - acos (sin c2 / sigma)).
Proof.
  intros Hsig Hc1 Hc2.
  pose proof (sine_gap _ c1 c2 Hsig Hc1 Hc2) as Hgap.
  destruct (horizon_quotient_range sigma c1 Hsig) as (H01 & Hq1 & Hp1);
    [lra | ].
  destruct (horizon_quotient_range sigma c2 Hsig) as (H02 & Hq2 & Hp2);
    [lra | ].
  rewrite !acos_asin by lra.
  set (a1 := asin (sin c1 / sigma)) in *.
  set (a2 := asin (sin c2 / sigma)) in *.
  pose proof (asin_bound (sin c1 / sigma)) as Ha1. fold a1 in Ha1.
  pose proof (asin_bound (sin c2 / sigma)) as Ha2. fold a2 in Ha2.
  assert (Hs12 : sin c1 <= sin c2).
  { destruct (proj2 Hc1) as [Hlt | Heq]; [ | rewrite Heq; lra].
    left. apply sin_increasing_1; lra. }
  assert (Ha12 : a1 <= a2).
  { apply asin_le; [lra | | lra].
    unfold Rdiv. apply Rmult_le_compat_r; [ | exact Hs12].
    left. apply Rinv_0_lt_compat. lra. }
  assert (Ha0 : 0 <= a1).
  { rewrite <- asin_0. apply asin_le; lra. }
  assert (Hsa : 0 <= sin (a2 - a1))
    by (apply sin_ge_0; pose proof PI_RGT_0; lra).
  split.
  - destruct (Rle_lt_dec (c2 - c1) (a2 - a1)) as [ | Hlt]; [lra | exfalso].
    assert (Hsin : sin (a2 - a1) < sin (c2 - c1))
      by (apply sin_increasing_1; lra).
    nra.
  - intros Hstrict Hc.
    assert (Hsc : 0 < sin (c2 - c1))
      by (apply sin_gt_0; pose proof PI_RGT_0; lra).
    destruct (Rlt_le_dec (c2 - c1) (a2 - a1)) as [ | Hle]; [lra | exfalso].
    assert (Hsin : sin (a2 - a1) <= sin (c2 - c1)).
    { destruct Hle as [Hlt | Heq]; [ | rewrite Heq; lra].
      left. apply sin_increasing_1; lra. }
    nra.
Qed.

(** The arccosine is zero at [1] only. *)
Lemma facos_zero (a : Real) : facos a = Fin 0 -> a = Fin 1.
Proof.
  destruct a as [x | s | ]; simpl; try discriminate.
  destruct (Rle_dec (-1) x); [ | discriminate].
  destruct (Rle_dec x 1); [ | discriminate].
  intros E. injection E as E. f_equal.
  rewrite <- (cos_acos x) by lra. rewrite E. apply cos_0.
Qed.

(** C4 (as amended): the division that defines [deltaL] is not guarded.
    For every input [deltaL] is the arccosine of the quotient of line
    37, a pole or not; it is [0] only where that quotient is exactly
    [1], and where the denominator [cos(latSSP) * cos(latP)] is zero or
    [NaN] it is [NaN], not [0]. *)
Theorem deltaL_unguarded (r clock cone : Real) (pos : Rvector3) :
  let numerator :=
    (fcos (lambda r cone pos) - fsin (e0 pos) * fsin (latP r clock cone pos))%fp
  in
  let denominator := (fcos (e0 pos) * fcos (latP r clock cone pos))%fp in
  deltaL r clock cone pos = facos (numerator / denominator)%fp
  /\ (deltaL r clock cone pos = Fin 0 ->
      (numerator / denominator)%fp = Fin 1)
  /\ (denominator = Fin 0 \/ denominator = NaN ->
      deltaL r clock cone pos = NaN).
Proof.
  intros numerator denominator. split; [reflexivity | split].
  - intros E. apply facos_zero. exact E.
  - apply deltaL_bad_denominator.
Qed.



(* ================================================================= *)
(** ** The chain of the specification over the reals *)

(** With a zero cone angle the earth-central angle is zero and the chain
    gives the sub-satellite point. *)
Lemma RealChain_lambda_zero (rho h : R) : RealChain.lambda rho h 0 = 0.
Proof.
  unfold RealChain.lambda, RealChain.epsilon. rewrite sin_0.
  replace (0 / RealChain.sinRho rho h) with 0 by (unfold Rdiv; ring).
  rewrite acos_0. lra.
Qed.

Lemma RealChain_latP_zero (k phi : R) :
  - (PI / 2) <= phi <= PI / 2 -> RealChain.latP 0 k phi = phi.
Proof.
  intros Hphi. unfold RealChain.latP. rewrite cos_0, sin_0.
  replace (1 * sin phi + 0 * cos phi * cos (- k)) with (sin phi) by ring.
  rewrite acos_asin by apply SIN_bound.
  rewrite asin_sin by lra. lra.
Qed.

Lemma RealChain_deltaL_zero (k phi : R) :
  - (PI / 2) < phi < PI / 2 -> RealChain.deltaL 0 k phi = 0.
Proof.
  intros Hphi. unfold RealChain.deltaL.
  rewrite RealChain_latP_zero by lra. rewrite cos_0.
  assert (Hc : 0 < cos phi) by (apply cos_gt_0; lra).
  replace ((1 - sin phi * sin phi) / (cos phi * cos phi)) with 1.
  - apply acos_1.
  - pose proof (trig_sq phi). field_simplify_eq; lra.
Qed.

Lemma RealChain_cone_zero (rho h k phi l : R) :
  - (PI / 2) < phi < PI / 2 ->
  RealChain.latP (RealChain.lambda rho h 0) k phi = phi
  /\ RealChain.lonP (RealChain.lambda rho h 0) k phi l = l.
Proof.
  intros Hphi. rewrite RealChain_lambda_zero. split.
  - apply RealChain_latP_zero. lra.
  - unfold RealChain.lonP. rewrite RealChain_deltaL_zero by lra.
    destruct (Rlt_dec k PI); lra.
Qed.

(** For a heading due south ([clock = pi]) that ends short of the pole
    the chain gives the point [lam] south of the sub-satellite point, on
    its meridian. *)
Lemma RealChain_due_south (lam phi l : R) :
  - (PI / 2) < phi < PI / 2 -> - (PI / 2) < phi - lam < PI / 2 ->
  RealChain.latP lam PI phi = phi - lam
  /\ RealChain.lonP lam PI phi l = l.
Proof.
  intros Hphi Hlam.
  assert (Hlat : RealChain.latP lam PI phi = phi - lam).
  { unfold RealChain.latP. rewrite cos_neg, cos_PI.
    replace (cos lam * sin phi + sin lam * cos phi * -1) with (sin (phi - lam))
      by (rewrite sin_minus; ring).
    rewrite acos_asin by apply SIN_bound.
    rewrite asin_sin by lra. lra. }
  split; [exact Hlat | ].
  assert (Hc : 0 < cos phi) by (apply cos_gt_0; lra).
  assert (HcS : 0 < cos (phi - lam)) by (apply cos_gt_0; lra).
  assert (Hd : RealChain.deltaL lam PI phi = 0).
  { unfold RealChain.deltaL. rewrite Hlat.
    replace (cos lam) with (cos (phi - (phi - lam))) at 1 by (f_equal; ring).
    rewrite cos_minus.
    replace ((cos phi * cos (phi - lam) + sin phi * sin (phi - lam)
              - sin phi * sin (phi - lam)) / (cos phi * cos (phi - lam)))
      with 1 by (field; lra).
    apply acos_1. }
  unfold RealChain.lonP. rewrite Hd. destruct (Rlt_dec PI PI); lra.
Qed.

(* ================================================================= *)
(** ** [projectionAlg] evaluated in binary64 *)

Section Binary64Facts.

Import PrimFloat.
Local Open Scope float_scope.

(** The sampled functions agree with their samples. *)
Lemma sampled_agrees_sin :
  Binary64.agrees (Binary64.sampled Binary64.sinSamples) Binary64.sinSamples.
Proof. repeat constructor. Qed.

Lemma sampled_agrees_cos :
  Binary64.agrees (Binary64.sampled Binary64.cosSamples) Binary64.cosSamples.
Proof. repeat constructor. Qed.

Lemma sampled_agrees_acos :
  Binary64.agrees (Binary64.sampled Binary64.acosSamples) Binary64.acosSamples.
Proof. repeat constructor. Qed.

(** Turns the sample lists into equations and evaluates the goal with
    them, one call of the library after the other. *)
Ltac sample_equations :=
  unfold Binary64.agrees, Binary64.sinSamples, Binary64.cosSamples,
    Binary64.acosSamples in *;
  repeat match goal with
         | H : Forall _ (_ :: _) |- _ =>
             let E := fresh "E" in
             apply Forall_cons_iff in H; destruct H as [E H];
             vm_compute in E
         | H : Forall _ [] |- _ => clear H
         end.

Ltac evaluate_binary64 :=
  sample_equations;
  unfold Binary64.projectionAlg, Binary64.lonP, Binary64.deltaL,
    Binary64.latP, Binary64.latPPrime, Binary64.phiE, Binary64.lambda,
    Binary64.epsilon, Binary64.sinRho;
  repeat (vm_compute;
          match goal with E : _ = _ |- _ => rewrite E end);
  vm_compute; reflexivity.

(** C6 (the code departs from the claim): in double arithmetic a zero
    cone angle does not give back the sub-satellite point.  Over the
    reals the chain gives it for every non-polar latitude.  In double
    arithmetic, for a spacecraft 600 km above latitude 1 rad, longitude
    0, and the clock angle 0, line 35 gives the latitude
    0.9999999999999999, the quotient of line 37 is
    0.29192658172642894 / 0.2919265817264289, which is
    1.0000000000000002 ([0x1.0000000000001p+0]), [acos] has a domain
    error there, and the longitude returned is [NaN].  The radius of the
    central body, a constant that is not under src/, is 6378.137 km
    ([0x1.8ea23126e978dp+12]) or 6378.1363 km
    ([0x1.8ea22e48e8a72p+12]).  This is so for every C library whose
    [sin], [cos] and [acos] return the correctly rounded values at the
    arguments reached. *)
Theorem projectionAlg_cone_zero_binary64 (sin cos acos : float -> float)
  (r : float) :
  Binary64.agrees sin Binary64.sinSamples ->
  Binary64.agrees cos Binary64.cosSamples ->
  Binary64.agrees acos Binary64.acosSamples ->
  r = 0x1.8ea23126e978dp+12 \/ r = 0x1.8ea22e48e8a72p+12 ->
  let pos := Binary64.mkRvector3 1 0 600 in
  let latP := Binary64.latP sin cos acos r 0 0 pos in
  (forall rho h k phi l : R,
     (- (PI / 2) < phi < PI / 2)%R ->
     RealChain.latP (RealChain.lambda rho h 0) k phi = phi
     /\ RealChain.lonP (RealChain.lambda rho h 0) k phi l = l)
  /\ (cos (Binary64.lambda sin acos r 0 pos) - sin 1 * sin latP)
     / (cos 1 * cos latP) = 0x1.0000000000001p+0
  /\ Binary64.projectionAlg sin cos acos r 0 0 pos
     = (0x1.fffffffffffffp-1, nan).
Proof.
  intros Hs Hc Ha Hr pos latP. subst pos latP.
  split; [exact RealChain_cone_zero | ].
  destruct Hr; subst r; split; evaluate_binary64.
Qed.

Lemma projectionAlg_cone_zero_binary64_witness :
  Binary64.projectionAlg (Binary64.sampled Binary64.sinSamples)
    (Binary64.sampled Binary64.cosSamples)
    (Binary64.sampled Binary64.acosSamples)
    0x1.8ea23126e978dp+12 0 0 (Binary64.mkRvector3 1 0 600)
  = (0x1.fffffffffffffp-1, nan).
Proof.
  exact (proj2 (proj2 (projectionAlg_cone_zero_binary64 _ _ _ _
                  sampled_agrees_sin sampled_agrees_cos sampled_agrees_acos
                  (or_introl eq_refl)))).
Defined.

(** C2 (the code departs from the claim): in double arithmetic the pair
    returned is not the pair of the closed-form chain.  Over the reals
    the chain gives, for a heading due south that ends short of the
    pole, the point [lambda] south of the sub-satellite point and on its
    meridian.  In double arithmetic, for a spacecraft 600 km above
    latitude 0.25 rad, longitude 0, of a sphere of radius 6378.137 km,
    the clock angle [pi] and the cone angle 0.75 rad, the heading is
    inside the horizon and the code returns the latitude
    0.15832294692843885, which is 0.0917 rad south; but the quotient of
    line 37 is 0.9567943116104957 / 0.9567943116104956, which is
    1.0000000000000002, and the longitude returned is [NaN].  With the
    radius 6378.1363 km the latitude is 0.158322936365062 and the
    longitude is [NaN] again.  This is so for every C library whose
    [sin], [cos] and [acos] return the correctly rounded values at the
    arguments reached. *)
Theorem projectionAlg_meridian_binary64 (sin cos acos : float -> float) :
  Binary64.agrees sin Binary64.sinSamples ->
  Binary64.agrees cos Binary64.cosSamples ->
  Binary64.agrees acos Binary64.acosSamples ->
  let r := 0x1.8ea23126e978dp+12 in
  let pos := Binary64.mkRvector3 0x1p-2 0 600 in
  let clock := Binary64.pi in
  let cone := 0x1.8p-1 in
  let latP := Binary64.latP sin cos acos r clock cone pos in
  (forall lam phi l : R,
     (- (PI / 2) < phi < PI / 2)%R -> (- (PI / 2) < phi - lam < PI / 2)%R ->
     RealChain.latP lam PI phi = (phi - lam)%R
     /\ RealChain.lonP lam PI phi l = l)
  /\ (sin cone <=? Binary64.sinRho r pos) = true
  /\ (cos (Binary64.lambda sin acos r cone pos) - sin 0x1p-2 * sin latP)
     / (cos 0x1p-2 * cos latP) = 0x1.0000000000001p+0
  /\ Binary64.projectionAlg sin cos acos r clock cone pos
     = (0x1.443ed23a1ca6p-3, nan)
  /\ Binary64.projectionAlg sin cos acos 0x1.8ea22e48e8a72p+12 clock cone pos
     = (0x1.443ed0cf2834p-3, nan).
Proof.
  intros Hs Hc Ha r pos clock cone latP. subst r pos clock cone latP.
  split; [exact RealChain_due_south | ].
  repeat split; evaluate_binary64.
Qed.

Lemma projectionAlg_meridian_binary64_witness :
  Binary64.projectionAlg (Binary64.sampled Binary64.sinSamples)
    (Binary64.sampled Binary64.cosSamples)
    (Binary64.sampled Binary64.acosSamples)
    0x1.8ea23126e978dp+12 Binary64.pi 0x1.8p-1
    (Binary64.mkRvector3 0x1p-2 0 600)
  = (0x1.443ed23a1ca6p-3, nan).
Proof.
  exact (proj1 (proj2 (proj2 (proj2 (projectionAlg_meridian_binary64 _ _ _
                  sampled_agrees_sin sampled_agrees_cos sampled_agrees_acos))))).
Defined.


(** C4 (counterexample): a spacecraft 600 km above the latitude nearest
    to [pi/2] that a double holds, looking straight down.  The cosine of
    that latitude is 6.1e-17, the denominator of line 37 is 3.7e-33
    ([0x1.377ce858a5d48p-108]), not zero; the division is performed and
    [deltaL] is [acos(0 / 3.7e-33)], that is [pi/2], not [0], so the
    longitude returned is a quarter turn away from [lonSSP].  [sin],
    [cos] and [acos] are the sampled ones; the radius is 6378.137 km in
    the first parts and 6378.1363 km in the last. *)
Lemma deltaL_above_pole_binary64 :
  let sin := Binary64.sampled Binary64.sinSamples in
  let cos := Binary64.sampled Binary64.cosSamples in
  let acos := Binary64.sampled Binary64.acosSamples in
  let r := 0x1.8ea23126e978dp+12 in
  let pos := Binary64.mkRvector3 (Binary64.pi / 2) 0 600 in
  cos (Binary64.e0 pos) * cos (Binary64.latP sin cos acos r 0 0 pos)
  = 0x1.377ce858a5d48p-108
  /\ Binary64.deltaL sin cos acos r 0 0 pos = Binary64.pi / 2
  /\ (Binary64.deltaL sin cos acos r 0 0 pos =? 0) = false
  /\ Binary64.projectionAlg sin cos acos r 0 0 pos
     = (Binary64.pi / 2, Binary64.pi / 2)
  /\ Binary64.projectionAlg sin cos acos 0x1.8ea22e48e8a72p+12 0 0 pos
     = (Binary64.pi / 2, Binary64.pi / 2).
Proof.
  vm_compute. repeat split.
Qed.

End Binary64Facts.

(* ================================================================= *)
(** ** The spacecraft-access matrix *)

Lemma GetMagnitude_Fin (x y z : R) :
  GetMagnitude (mkRvector3 (Fin x) (Fin y) (Fin z))
  = Fin (sqrt (x * x + y * y + z * z)).
Proof.
  unfold GetMagnitude. cbn [e0 e1 e2]. autorewrite with fp.
  unfold fsqrt. destruct (Rle_dec 0 (x * x + y * y + z * z)) as [ | N];
    [reflexivity | exfalso; apply N; nra].
Qed.

Lemma magnitude_positive (x y z : R) :
  x <> 0 \/ y <> 0 \/ z <> 0 -> 0 < sqrt (x * x + y * y + z * z).
Proof.
  intros Hne. apply sqrt_lt_R0.
  pose proof (Rle_0_sqr x) as Hx. pose proof (Rle_0_sqr y) as Hy.
  pose proof (Rle_0_sqr z) as Hz. unfold Rsqr in *.
  destruct Hne as [N | [N | N]];
    (assert (0 < x * x \/ 0 < y * y \/ 0 < z * z) as [P | [P | P]];
     [ | lra | lra | lra ]).
  - left. destruct Hx as [ | E]; [assumption | ].
    symmetry in E. apply Rmult_integral in E. tauto.
  - right. left. destruct Hy as [ | E]; [assumption | ].
    symmetry in E. apply Rmult_integral in E. tauto.
  - right. right. destruct Hz as [ | E]; [assumption | ].
    symmetry in E. apply Rmult_integral in E. tauto.
Qed.

Lemma unitVector_normalizes : normalizes unitVector.
Proof. intros v mag _ _. reflexivity. Qed.

Section AccessMatrixFacts.

Variable Normalize : Rvector3 -> Rvector3.
Hypothesis Normalize_spec : normalizes Normalize.

(** The matrix for a finite, non-zero topocentric velocity [(a, b, w)];
    [m] is the magnitude of the transformed velocity. *)
Lemma accessMatrixOfTopocentric_Fin (a b w : R) :
  let m := sqrt (- a * - a + b * b + - w * - w) in
  a <> 0 \/ b <> 0 \/ w <> 0 ->
  0 < m
  /\ GetMagnitude (transformedVelocity (mkRvector3 (Fin a) (Fin b) (Fin w)))
     = Fin m
  /\ accessMatrixOfTopocentric Normalize (mkRvector3 (Fin a) (Fin b) (Fin w))
     = mkRmatrix33
         (Fin (b / m * 1 - - w / m * 0)) (Fin (- a / m)) (Fin 0)
         (Fin (- w / m * 0 - - a / m * 1)) (Fin (b / m)) (Fin 0)
         (Fin (- a / m * 0 - b / m * 0)) (Fin (- w / m)) (Fin 1).
Proof.
  intros m Hne.
  assert (Hm : 0 < m).
  { apply magnitude_positive. destruct Hne as [N | [N | N]]; [left | | ]; lra. }
  assert (Hmag : GetMagnitude
                   (transformedVelocity (mkRvector3 (Fin a) (Fin b) (Fin w)))
                 = Fin m).
  { unfold transformedVelocity. cbn [e0 e1 e2]. autorewrite with fp.
    apply GetMagnitude_Fin. }
  split; [exact Hm | split; [exact Hmag | ]].
  unfold accessMatrixOfTopocentric.
  rewrite (Normalize_spec _ m Hmag) by lra.
  unfold unitVector. rewrite Hmag.
  unfold transformedVelocity. cbn [e0 e1 e2]. autorewrite with fp.
  rewrite !fdiv_Fin by lra.
  unfold Cross. cbn [e0 e1 e2]. autorewrite with fp.
  reflexivity.
Qed.

(** A vertical velocity component leaves the second and third columns
    oblique. *)
Lemma accessMatrix_oblique (a b w : R) :
  w <> 0 ->
  ~ orthonormal
      (accessMatrixOfTopocentric Normalize (mkRvector3 (Fin a) (Fin b) (Fin w))).
Proof.
  intros Hw (_ & _ & _ & _ & _ & H12).
  destruct (accessMatrixOfTopocentric_Fin a b w) as (Hm & _ & E); [tauto | ].
  rewrite E in H12. unfold dot, column1, column2 in H12.
  simpl in H12. injection H12 as H12.
  set (m := sqrt (- a * - a + b * b + - w * - w)) in *.
  assert (Hq : - w / m = 0) by lra.
  apply (f_equal (fun q => q * m)) in Hq.
  unfold Rdiv in Hq. rewrite Rmult_assoc, Rinv_l, Rmult_0_l in Hq by lra. lra.
Qed.

(** With a horizontal, non-zero velocity the matrix is a right-handed
    orthonormal basis. *)
Lemma accessMatrix_horizontal (a b : R) :
  a <> 0 \/ b <> 0 ->
  orthonormal
    (accessMatrixOfTopocentric Normalize (mkRvector3 (Fin a) (Fin b) (Fin 0)))
  /\ rightHanded
       (accessMatrixOfTopocentric Normalize
          (mkRvector3 (Fin a) (Fin b) (Fin 0))).
Proof.
  intros Hne.
  destruct (accessMatrixOfTopocentric_Fin a b 0) as (Hm & _ & E); [tauto | ].
  rewrite E. clear E.
  set (m := sqrt (- a * - a + b * b + - 0 * - 0)) in *.
  assert (Hmm : m * m = a * a + b * b).
  { unfold m. rewrite sqrt_sqrt by nra. ring. }
  assert (Hinv : / m * / m * (a * a + b * b) = 1).
  { rewrite <- Hmm. field. lra. }
  unfold orthonormal, rightHanded, dot, Cross, column0, column1, column2.
  cbn [e0 e1 e2 m00 m01 m02 m10 m11 m12 m20 m21 m22].
  autorewrite with fp.
  repeat split; repeat f_equal; unfold Rdiv; try ring.
  all: transitivity (/ m * / m * (a * a + b * b)); [ring | exact Hinv].
Qed.

End AccessMatrixFacts.

(* ================================================================= *)
(** ** Sorting and deduplication of the visible points *)

Lemma insert_In (x p : Integer) (l : IntegerArray) :
  In p (insert x l) <-> p = x \/ In p l.
Proof.
  induction l as [ | y t IH]; simpl.
  - intuition.
  - destruct (x <=? y)%Z; simpl; [intuition | rewrite IH; intuition].
Qed.

Lemma sort_In (p : Integer) (l : IntegerArray) : In p (sort l) <-> In p l.
Proof.
  induction l as [ | x t IH]; simpl; [tauto | ].
  rewrite insert_In, IH. intuition.
Qed.

Lemma insert_sorted (x : Integer) (l : IntegerArray) :
  StronglySorted Z.le l -> StronglySorted Z.le (insert x l).
Proof.
  induction 1 as [ | y t Hs IH Hall]; simpl.
  - repeat constructor.
  - destruct (x <=? y)%Z eqn:Hxy.
    + apply Z.leb_le in Hxy. constructor; [now constructor | ].
      constructor; [exact Hxy | ].
      eapply Forall_impl; [ | exact Hall]. intros z Hz. simpl in Hz. lia.
    + apply Z.leb_gt in Hxy. constructor; [exact IH | ].
      apply Forall_forall. intros z Hz. apply insert_In in Hz.
      destruct Hz as [-> | Hz]; [lia | ].
      rewrite Forall_forall in Hall. now apply Hall.
Qed.

Lemma sort_sorted (l : IntegerArray) : StronglySorted Z.le (sort l).
Proof.
  induction l as [ | x t IH]; simpl; [constructor | now apply insert_sorted].
Qed.

Lemma insert_perm (x : Integer) (l : IntegerArray) :
  Permutation (x :: l) (insert x l).
Proof.
  induction l as [ | y t IH]; simpl; [reflexivity | ].
  destruct (x <=? y)%Z; [reflexivity | ].
  rewrite perm_swap. now apply perm_skip.
Qed.

Lemma sort_perm (l : IntegerArray) : Permutation l (sort l).
Proof.
  induction l as [ | x t IH]; simpl; [reflexivity | ].
  rewrite <- insert_perm. now apply perm_skip.
Qed.

Lemma unique_from_In (prev p : Integer) (l : IntegerArray) :
  (In p (unique_from prev l) -> In p l)
  /\ (In p l -> p = prev \/ In p (unique_from prev l)).
Proof.
  revert prev. induction l as [ | y t IH]; intros prev; simpl; [tauto | ].
  destruct (prev =? y)%Z eqn:Hpy.
  - apply Z.eqb_eq in Hpy. subst y. destruct (IH prev) as [I1 I2].
    split; [intros H; right; now apply I1 | ].
    intros [-> | H]; [now left | now apply I2].
  - destruct (IH y) as [I1 I2]. simpl. split.
    + intros [-> | H]; [now left | right; now apply I1].
    + intros [-> | H]; [right; now left | ].
      destruct (I2 H) as [-> | H']; right; [now left | now right].
Qed.

Lemma unique_In (p : Integer) (l : IntegerArray) :
  In p (unique l) <-> In p l.
Proof.
  destruct l as [ | x t]; simpl; [tauto | ].
  destruct (unique_from_In x p t) as [I1 I2]. split.
  - intros [-> | H]; [now left | right; now apply I1].
  - intros [-> | H]; [now left | ].
    destruct (I2 H) as [-> | H']; [now left | now right].
Qed.

Lemma unique_from_sorted (prev : Integer) (l : IntegerArray) :
  Forall (Z.le prev) l -> StronglySorted Z.le l ->
  Forall (Z.lt prev) (unique_from prev l)
  /\ StronglySorted Z.lt (unique_from prev l).
Proof.
  revert prev. induction l as [ | y t IH]; intros prev Hall Hs; simpl.
  - split; constructor.
  - inversion Hall as [ | ? ? Hpy Hall']; subst.
    inversion Hs as [ | ? ? Hs' Hy]; subst.
    destruct (prev =? y)%Z eqn:E.
    + apply IH; assumption.
    + apply Z.eqb_neq in E.
      destruct (IH y Hy Hs') as [F S'].
      split; constructor; trivial; try lia.
      eapply Forall_impl; [ | exact F]. intros z Hz. simpl in Hz. lia.
Qed.

Lemma unique_sorted (l : IntegerArray) :
  StronglySorted Z.le l -> StronglySorted Z.lt (unique l).
Proof.
  destruct l as [ | x t]; simpl; [constructor | ].
  intros Hs. inversion Hs as [ | ? ? Hs' Hx]; subst.
  destruct (unique_from_sorted x t Hx Hs') as [F S'].
  now constructor.
Qed.

Lemma strictly_sorted_NoDup (l : IntegerArray) :
  StronglySorted Z.lt l -> NoDup l.
Proof.
  induction 1 as [ | x t Hs IH Hall]; constructor; [ | exact IH].
  intros Hin. rewrite Forall_forall in Hall. specialize (Hall x Hin). lia.
Qed.

(* ================================================================= *)
(** ** The propagation loop *)

Section MainFacts.

Context (E : Collaborators) (A : Inputs).

Lemma afterSteps_S (n : nat) (date0 : AbsoluteDate E) :
  afterSteps E A (S n) date0 = loopBody E A (afterSteps E A n date0).
Proof. reflexivity. Qed.

(** Loop invariant: at the head of iteration [n] the date has been
    advanced [n] times and the spacecraft is at that date. *)
Lemma afterSteps_head (n : nat) (date0 : AbsoluteDate E) :
  date E (afterSteps E A n date0) = epochAt E A n date0
  /\ cartState E (afterSteps E A n date0) = Propagate E (epochAt E A n date0)
  /\ nSteps E (afterSteps E A n date0) = Z.of_nat n.
Proof.
  induction n as [ | n (Hd & Hc & Hn)].
  - repeat split.
  - rewrite afterSteps_S. unfold loopBody. cbn [date cartState nSteps].
    rewrite Hd, Hn. repeat split. lia.
Qed.

Lemma afterSteps_satOut (n : nat) (date0 : AbsoluteDate E) :
  satOut E (afterSteps E A n date0)
  = map (statesLineOfTick E A date0) (seq 0 n).
Proof.
  induction n as [ | n IH]; [reflexivity | ].
  rewrite afterSteps_S, seq_S, map_app. unfold loopBody. cbn [satOut].
  destruct (afterSteps_head n date0) as (Hd & _ & Hn).
  rewrite IH, Hd, Hn. reflexivity.
Qed.

Lemma afterSteps_satAcc (n : nat) (date0 : AbsoluteDate E) :
  satAcc E (afterSteps E A n date0)
  = flat_map (accessLinesOfTick E A date0) (seq 0 n).
Proof.
  induction n as [ | n IH]; [reflexivity | ].
  rewrite afterSteps_S, seq_S, flat_map_app. unfold loopBody. cbn [satAcc].
  destruct (afterSteps_head n date0) as (Hd & Hc & Hn).
  rewrite IH, Hd, Hc, Hn. simpl flat_map. rewrite app_nil_r.
  unfold accessLinesOfTick, loopPointsOfTick.
  destruct (loopPointsAt E A (epochAt E A n date0)
              (Propagate E (epochAt E A n date0))) as [ | p t];
    simpl; [now rewrite app_nil_r | reflexivity].
Qed.

(** The [while] loop runs the body until the guard fails. *)
Lemma mainLoop_afterSteps (fuel : nat) (startDate : Real) :
  forall (n : nat) (date0 : AbsoluteDate E) (s : LoopState E),
    mainLoop E A fuel startDate (afterSteps E A n date0) = Some s ->
    exists m : nat,
      s = afterSteps E A (n + m) date0
      /\ loopGuard E A startDate s = false
      /\ forall k : nat, (k < m)%nat ->
           loopGuard E A startDate (afterSteps E A (n + k) date0) = true.
Proof.
  induction fuel as [ | fuel IH]; intros n date0 s; simpl.
  - destruct (loopGuard E A startDate (afterSteps E A n date0)) eqn:G;
      [discriminate | ].
    intros [= <-]. exists 0%nat. rewrite Nat.add_0_r.
    repeat split; [exact G | intros k Hk; lia].
  - destruct (loopGuard E A startDate (afterSteps E A n date0)) eqn:G.
    + rewrite <- afterSteps_S. intros Hrun.
      destruct (IH (S n) date0 s Hrun) as (m & Hs & Hg & Hk).
      exists (S m). rewrite Nat.add_succ_r. repeat split; trivial.
      intros [ | k] Hlt; [now rewrite Nat.add_0_r | ].
      rewrite Nat.add_succ_r. apply (Hk k). lia.
    + intros [= <-]. exists 0%nat. rewrite Nat.add_0_r.
      repeat split; [exact G | intros k Hk; lia].
Qed.

End MainFacts.

Section MainTermination.

Context (E : Collaborators) (A : Inputs).

(** With enough fuel the loop returns the state at which the guard
    first fails. *)
Lemma mainLoop_complete (startDate : Real) (date0 : AbsoluteDate E) :
  forall (m n fuel : nat),
    (forall k : nat, (k < m)%nat ->
       loopGuard E A startDate (afterSteps E A (n + k) date0) = true) ->
    loopGuard E A startDate (afterSteps E A (n + m) date0) = false ->
    (m <= fuel)%nat ->
    mainLoop E A fuel startDate (afterSteps E A n date0)
    = Some (afterSteps E A (n + m) date0).
Proof.
  induction m as [ | m IH]; intros n fuel Hk Hg Hf.
  - rewrite Nat.add_0_r in *. destruct fuel; simpl; now rewrite Hg.
  - destruct fuel as [ | fuel]; [lia | ]. simpl.
    pose proof (Hk 0%nat ltac:(lia)) as G0. rewrite Nat.add_0_r in G0.
    rewrite G0, <- afterSteps_S.
    replace (n + S m)%nat with (S n + m)%nat in * by lia.
    apply IH; [ | exact Hg | lia].
    intros k Hlt. replace (S n + k)%nat with (n + S k)%nat by lia.
    apply Hk. lia.
Qed.

End MainTermination.

(** The sample mission runs for three ticks. *)
Lemma tick_mission_runs :
  mainLoop tickCollaborators tickInputs 5 (Fin 0)
    (loopStart tickCollaborators 0%Z)
  = Some (afterSteps tickCollaborators tickInputs 3 0%Z).
Proof.
  apply (mainLoop_complete tickCollaborators tickInputs (Fin 0) 0%Z 3 0 5);
    [ | | lia].
  - intros k Hk. unfold loopGuard.
    destruct (afterSteps_head tickCollaborators tickInputs (0 + k) 0%Z)
      as (Hd & _ & _).
    rewrite Hd.
    assert (Hc : (k = 0 \/ k = 1 \/ k = 2)%nat) by lia.
    destruct Hc as [-> | [-> | ->]]; simpl; apply fltb_Fin_true; lra.
  - unfold loopGuard. simpl. apply fltb_Fin_false. lra.
Qed.

(** When [Advance] adds a fixed amount to the Julian date, the date at
    the head of iteration [n] is the start date plus [n] such amounts. *)
Lemma epochAt_julian (E : Collaborators) (A : Inputs) (j0 delta : R)
  (date0 : AbsoluteDate E) :
  (forall d : AbsoluteDate E,
     GetJulianDate E (Advance E d (stepSize A))
     = (GetJulianDate E d + Fin delta)%fp) ->
  GetJulianDate E date0 = Fin j0 ->
  forall n : nat,
    GetJulianDate E (epochAt E A n date0) = Fin (j0 + INR n * delta).
Proof.
  intros Hadv H0 n. induction n as [ | n IH].
  - simpl. rewrite H0. f_equal. ring.
  - change (epochAt E A (S n) date0)
      with (Advance E (epochAt E A n date0) (stepSize A)).
    rewrite Hadv, IH. autorewrite with fp. f_equal. rewrite S_INR. ring.
Qed.

(* ================================================================= *)
(** ** Claims on [getNadirToSpacecraftAccessMatrix] *)

(** C3 (the code departs from the claim): the velocity is negated in its
    first and third topocentric components and normalized, but it is not
    projected onto the local horizontal.  For every state whose
    topocentric velocity has a non-zero vertical component the returned
    matrix is not orthonormal: its second column is not perpendicular to
    its third. *)
Theorem getNadirToSpacecraftAccessMatrix_oblique
  (GetRadius : Real)
  (CartesianToSpherical FixedToTopocentric : Rvector3 -> Real -> Real -> Rvector3)
  (Normalize : Rvector3 -> Rvector3)
  (state_ECF : Rvector6) (a b w : R) :
  normalizes Normalize ->
  topocentricVelocity GetRadius CartesianToSpherical FixedToTopocentric state_ECF
  = mkRvector3 (Fin a) (Fin b) (Fin w) ->
  w <> 0 ->
  ~ orthonormal
      (getNadirToSpacecraftAccessMatrix GetRadius CartesianToSpherical
         FixedToTopocentric Normalize state_ECF).
Proof.
  intros HN Hv Hw. unfold getNadirToSpacecraftAccessMatrix. rewrite Hv.
  now apply accessMatrix_oblique.
Qed.

(** A state with 3 km/s along the track and 4 km/s along the zenith:
    the first column has the squared length [9/25] and the second and
    third columns have the scalar product [-4/5]. *)
Lemma getNadirToSpacecraftAccessMatrix_oblique_witness :
  let m := getNadirToSpacecraftAccessMatrix (Fin 6378) sphericalOnXAxis
             topocentricOnXAxis unitVector (stateOnXAxis 4 0 (-3)) in
  ~ orthonormal m
  /\ dot (column0 m) (column0 m) = Fin (9 / 25)
  /\ dot (column1 m) (column2 m) = Fin (- (4 / 5)).
Proof.
  intros m. split.
  - apply (getNadirToSpacecraftAccessMatrix_oblique (Fin 6378)
             sphericalOnXAxis topocentricOnXAxis unitVector
             (stateOnXAxis 4 0 (-3)) (- -3) 0 4);
      [exact unitVector_normalizes | reflexivity | lra].
  - unfold m, getNadirToSpacecraftAccessMatrix.
    change (topocentricVelocity (Fin 6378) sphericalOnXAxis topocentricOnXAxis
              (stateOnXAxis 4 0 (-3)))
      with (mkRvector3 (Fin (- -3)) (Fin 0) (Fin 4)).
    destruct (accessMatrixOfTopocentric_Fin unitVector unitVector_normalizes
                (- -3) 0 4) as (Hm & _ & E); [right; right; lra | ].
    rewrite E. unfold dot, column0, column1, column2.
    cbn [e0 e1 e2 m00 m10 m20 m01 m11 m21 m02 m12 m22]. autorewrite with fp.
    match goal with
    | |- context [sqrt ?x] => replace x with (5 * 5) by ring
    end.
    rewrite sqrt_square by lra. split; f_equal; field.
Defined.

(** The zero velocity: the vector handed to the normalization has the
    magnitude zero, and the division by the magnitude makes every
    element of the normalized vector, and with it the first two columns
    of the matrix, [NaN]. *)
Lemma accessMatrix_zero_velocity (a b w : R) :
  a = 0 -> b = 0 -> w = 0 ->
  GetMagnitude (transformedVelocity (mkRvector3 (Fin a) (Fin b) (Fin w)))
  = Fin 0
  /\ accessMatrixOfTopocentric unitVector (mkRvector3 (Fin a) (Fin b) (Fin w))
     = mkRmatrix33 NaN NaN (Fin 0)
                   NaN NaN (Fin 0)
                   NaN NaN (Fin 1).
Proof.
  intros -> -> ->.
  assert (Hmag : GetMagnitude
                   (transformedVelocity (mkRvector3 (Fin 0) (Fin 0) (Fin 0)))
                 = Fin 0).
  { unfold transformedVelocity. cbn [e0 e1 e2]. autorewrite with fp.
    rewrite GetMagnitude_Fin. f_equal.
    replace (- 0 * - 0 + 0 * 0 + - 0 * - 0) with 0 by ring. apply sqrt_0. }
  split; [exact Hmag | ].
  unfold accessMatrixOfTopocentric, unitVector. rewrite Hmag.
  unfold transformedVelocity. cbn [e0 e1 e2]. autorewrite with fp.
  assert (E0 : (Fin 0 / Fin 0)%fp = NaN).
  { unfold fdiv. destruct (Req_dec_T 0 0) as [_ | N]; [ | now elim N].
    reflexivity. }
  assert (E1 : (Fin (- 0) / Fin 0)%fp = NaN).
  { replace (- 0) with 0 by ring. exact E0. }
  rewrite E0, E1. reflexivity.
Qed.




(* ================================================================= *)
(** ** Claims on the propagation loop *)

(** C8: when [yaw180_flag] is true, the list of visible grid-point
    indices of a tick (the nominal coverage result followed by the
    yaw-180 result, sorted, neighbouring duplicates erased) is in
    strictly ascending order, so it is sorted and has no duplicate
    index; it holds exactly the indices of the two results. *)
Theorem loopPoints_yaw180_sorted_unique
  (E : Collaborators) (A : Inputs) (d : AbsoluteDate E) (c : Rvector6) :
  yaw180_flag A = true ->
  StronglySorted Z.le (loopPointsAt E A d c)
  /\ StronglySorted Z.lt (loopPointsAt E A d c)
  /\ NoDup (loopPointsAt E A d c)
  /\ (forall p : Integer,
        In p (loopPointsAt E A d c)
        <-> In p (CheckPointCoverage E d c false)
            \/ In p (CheckPointCoverage E d c true)).
Proof.
  intros Hyaw. unfold loopPointsAt. rewrite Hyaw.
  set (l := CheckPointCoverage E d c false ++ CheckPointCoverage E d c true).
  assert (Hlt : StronglySorted Z.lt (unique (sort l)))
    by apply unique_sorted, sort_sorted.
  repeat split.
  - clear -Hlt. induction Hlt as [ | x t Hs IH Hall]; constructor; trivial.
    eapply Forall_impl; [ | exact Hall]. intros z Hz. simpl in Hz. lia.
  - exact Hlt.
  - now apply strictly_sorted_NoDup.
  - rewrite unique_In, sort_In. unfold l. apply in_app_or.
  - rewrite unique_In, sort_In. unfold l. apply in_or_app.
Qed.

(** The sample mission sees the points 1 and then 1, 0 at tick 0. *)
Lemma loopPoints_yaw180_sorted_unique_witness :
  loopPointsAt tickCollaborators tickInputs 0%Z (Propagate tickCollaborators 0%Z)
  = [0; 1]%Z
  /\ NoDup (loopPointsAt tickCollaborators tickInputs 0%Z
              (Propagate tickCollaborators 0%Z)).
Proof.
  split; [reflexivity | ].
  apply (loopPoints_yaw180_sorted_unique tickCollaborators tickInputs 0%Z
           (Propagate tickCollaborators 0%Z) eq_refl).
Defined.

(** C9: an iteration of the loop appends a line to the access file if and
    only if its list of visible grid points is not empty; with no point
    in view the access file is left as it is (no line of empty cells is
    written).  So the times of the access lines need not be contiguous:
    in the sample mission the lines carry the labels of ticks 0 and 2
    while the states file has a line for each of the three ticks. *)
Theorem access_line_iff_visible
  (E : Collaborators) (A : Inputs) (s : LoopState E) :
  satAcc E (loopBody E A s)
  = match loopPointsAt E A (date E s) (cartState E s) with
    | [] => satAcc E s
    | p :: t => satAcc E s ++ [accessLine A (nSteps E s) (p :: t)]
    end
  /\ (length (satAcc E (loopBody E A s)) = S (length (satAcc E s))
      <-> loopPointsAt E A (date E s) (cartState E s) <> [])
  /\ (satAcc E (loopBody E A s) = satAcc E s
      <-> loopPointsAt E A (date E s) (cartState E s) = [])
  /\ map accessTime
       (satAcc tickCollaborators (afterSteps tickCollaborators tickInputs 3 0%Z))
     = [timeLabel tickInputs 0%Z; timeLabel tickInputs 2%Z]
  /\ map statesTime
       (satOut tickCollaborators (afterSteps tickCollaborators tickInputs 3 0%Z))
     = [timeLabel tickInputs 0%Z; timeLabel tickInputs 1%Z;
        timeLabel tickInputs 2%Z].
Proof.
  assert (Hbody : satAcc E (loopBody E A s)
                  = match loopPointsAt E A (date E s) (cartState E s) with
                    | [] => satAcc E s
                    | p :: t =>
                        satAcc E s ++ [accessLine A (nSteps E s) (p :: t)]
                    end).
  { unfold loopBody. cbn [satAcc].
    destruct (loopPointsAt E A (date E s) (cartState E s)); reflexivity. }
  split; [exact Hbody | ].
  rewrite Hbody.
  destruct (loopPointsAt E A (date E s) (cartState E s)) as [ | p t].
  - repeat split; try reflexivity; try congruence; try tauto.
    intros Hlen. exfalso. lia.
  - repeat split; try reflexivity; try congruence.
    + rewrite length_app. simpl. lia.
    + intros Heq. exfalso.
      apply (f_equal (@length AccessRow)) in Heq.
      rewrite length_app in Heq. simpl in Heq. lia.
Qed.

(** C10: at the head of iteration [n] the step counter is [n], the date
    has been advanced [n] times from the start date and the spacecraft
    is at that date, so the coverage of the iteration is evaluated
    there.  The iteration then advances the date once more, propagates
    the spacecraft, and writes under the label [n * stepSize] the
    Cartesian state of date [n + 1] to the states file, and, if any point
    is in view, the coverage of date [n] to the access file.  After [n]
    iterations the two files hold exactly these lines for the ticks
    [0 .. n-1]. *)
Theorem states_line_one_step_ahead
  (E : Collaborators) (A : Inputs) (date0 : AbsoluteDate E) (n : nat) :
  let s := afterSteps E A n date0 in
  nSteps E s = Z.of_nat n
  /\ date E s = epochAt E A n date0
  /\ cartState E s = Propagate E (epochAt E A n date0)
  /\ date E (loopBody E A s) = Advance E (epochAt E A n date0) (stepSize A)
  /\ date E (loopBody E A s) = epochAt E A (S n) date0
  /\ satOut E (loopBody E A s)
     = satOut E s
       ++ [{| statesTime := timeLabel A (Z.of_nat n);
              statesCart := Propagate E (epochAt E A (S n) date0) |}]
  /\ satAcc E (loopBody E A s)
     = satAcc E s
       ++ match loopPointsAt E A (epochAt E A n date0)
                  (Propagate E (epochAt E A n date0)) with
          | [] => []
          | p :: t => [accessLine A (Z.of_nat n) (p :: t)]
          end
  /\ satOut E s = map (statesLineOfTick E A date0) (seq 0 n)
  /\ satAcc E s = flat_map (accessLinesOfTick E A date0) (seq 0 n).
Proof.
  intros s.
  destruct (afterSteps_head E A n date0) as (Hd & Hc & Hn). fold s in Hd, Hc, Hn.
  repeat split; trivial.
  - unfold loopBody. cbn [date]. now rewrite Hd.
  - unfold loopBody. cbn [date]. now rewrite Hd.
  - unfold loopBody. cbn [satOut]. now rewrite Hd, Hn.
  - unfold loopBody. cbn [satAcc]. rewrite Hd, Hc, Hn.
    destruct (loopPointsAt E A (epochAt E A n date0)
                (Propagate E (epochAt E A n date0)));
      simpl; [now rewrite app_nil_r | reflexivity].
  - apply afterSteps_satOut.
  - apply afterSteps_satAcc.
Qed.

(* ================================================================= *)
(** * Further properties of the code *)

(** ** [projectionAlg]: ranges, symmetries and undefined results *)

Lemma facos_below (x : R) : x < -1 -> facos (Fin x) = NaN.
Proof.
  intros Hx. unfold facos.
  destruct (Rle_dec (-1) x); [lra | reflexivity].
Qed.

(** [acos] gives [NaN] or an angle in [[0, pi]], never an infinity. *)
Lemma facos_cases (a : Real) :
  facos a = NaN \/ exists y : R, facos a = Fin y /\ 0 <= y <= PI.
Proof.
  destruct a as [x | s | ]; simpl; try (now left).
  destruct (Rle_dec (-1) x); [ | now left].
  destruct (Rle_dec x 1); [ | now left].
  right. exists (acos x). split; [reflexivity | apply acos_bound].
Qed.

(** The result depends on the clock angle through [cos(phiE)] and the
    test [clock < pi] only. *)
Lemma latP_clock (r clock clock' cone : Real) (pos : Rvector3) :
  fcos (phiE clock) = fcos (phiE clock') ->
  latP r clock cone pos = latP r clock' cone pos
  /\ deltaL r clock cone pos = deltaL r clock' cone pos.
Proof.
  intros Hc. unfold deltaL, latP, latPPrime. now rewrite Hc.
Qed.

Lemma cos_mirror (k : R) : cos (- (2 * PI - k)) = cos (- k).
Proof.
  rewrite !cos_neg, cos_minus, cos_2PI, sin_2PI. ring.
Qed.

(** [deltaL] is [NaN] or an angle in [[0, pi]]. *)
Lemma deltaL_cases (r clock cone : Real) (pos : Rvector3) :
  deltaL r clock cone pos = NaN
  \/ exists d : R, deltaL r clock cone pos = Fin d /\ 0 <= d <= PI.
Proof. unfold deltaL. apply facos_cases. Qed.

(** X1: the latitude returned by [projectionAlg] is [NaN] or a number in
    [[-pi/2, pi/2]]; it is never infinite and never outside the range of
    a latitude, whatever the five inputs are. *)
Theorem projectionAlg_latitude_range (r clock cone : Real) (pos : Rvector3) :
  fst (projectionAlg r clock cone pos) = NaN
  \/ exists y : R,
       fst (projectionAlg r clock cone pos) = Fin y
       /\ - (PI / 2) <= y <= PI / 2.
Proof.
  unfold projectionAlg. cbn [fst]. unfold latP, latPPrime.
  destruct (facos_cases
              (fcos (lambda r cone pos) * fsin (e0 pos)
               + fsin (lambda r cone pos) * fcos (e0 pos) * fcos (phiE clock))%fp)
    as [E | (y & E & Hy)]; rewrite E, half_pi.
  - left. reflexivity.
  - right. exists (PI / 2 - y). autorewrite with fp. split; [reflexivity | lra].
Qed.

(** X2: for a finite sub-satellite longitude, the longitude returned by
    [projectionAlg] is [NaN] or lies at most [pi] east of [lonSSP] when
    [clock < pi], and at most [pi] west of it otherwise.  It is not
    reduced to [(-pi, pi]]. *)
Theorem projectionAlg_longitude_side (r clock cone : Real) (pos : Rvector3)
  (l : R) :
  e1 pos = Fin l ->
  snd (projectionAlg r clock cone pos) = NaN
  \/ exists d : R,
       0 <= d <= PI
       /\ deltaL r clock cone pos = Fin d
       /\ snd (projectionAlg r clock cone pos)
          = Fin (if (clock <? pi)%fp then l + d else l - d).
Proof.
  intros Hl. unfold projectionAlg. cbn [snd]. unfold lonP. rewrite Hl.
  destruct (deltaL_cases r clock cone pos) as [E | (d & E & Hd)]; rewrite E.
  - left. destruct (clock <? pi)%fp; reflexivity.
  - right. exists d. repeat split; try lra.
    destruct (clock <? pi)%fp; reflexivity.
Qed.

Lemma projectionAlg_longitude_side_witness :
  exists d : R,
    0 <= d <= PI
    /\ snd (projectionAlg (Fin 6378) (Fin (PI / 2)) (Fin (PI / 6)) pos600)
       = Fin (0 + d).
Proof.
  destruct (projectionAlg_longitude_side (Fin 6378) (Fin (PI / 2))
              (Fin (PI / 6)) pos600 0 eq_refl) as [E | (d & Hd & _ & E)].
  - exfalso.
    assert (Hk : 0 <= PI / 2 < 2 * PI) by (pose proof PI_RGT_0; lra).
    assert (Hc : 0 <= PI / 6 <= PI) by (pose proof PI_RGT_0; lra).
    pose proof (projectionAlg_real 6378 600 (PI / 2) (PI / 6) 0 0) as R.
    unfold pos600 in E.
    rewrite R in E; [discriminate | lra | lra | | | ].
    + pose proof (RealChain_sinRho_range 6378 600 ltac:(lra) ltac:(lra)).
      assert (Hs : sin (PI / 6) <= RealChain.sinRho 6378 600).
      { rewrite sin_PI6. unfold RealChain.sinRho. lra. }
      rewrite sin_PI6 in *. split.
      * apply Rle_trans with 0; [lra | ]. apply Rmult_le_pos; [lra | ].
        left. apply Rinv_0_lt_compat. lra.
      * apply Rmult_le_reg_r with (RealChain.sinRho 6378 600); [lra | ].
        unfold Rdiv at 1. rewrite Rmult_assoc, Rinv_l by lra. lra.
    + rewrite cos_0. lra.
    + rewrite RealChain_latP_equator, cos_0. lra.
  - exists d. split; [exact Hd | ].
    rewrite E. unfold pi.
    rewrite fltb_Fin_true by (pose proof PI_RGT_0; lra). reflexivity.
Defined.

(** X3: the clock angles [k] and [2 pi - k], [0 <= k < pi], give the
    same latitude and the same [deltaL]; the first result lies [deltaL]
    east of the sub-satellite meridian and the second [deltaL] west of
    it. *)
Theorem projectionAlg_mirror (r cone : Real) (pos : Rvector3) (k : R) :
  0 <= k < PI ->
  fst (projectionAlg r (Fin k) cone pos)
  = fst (projectionAlg r (Fin (2 * PI - k)) cone pos)
  /\ deltaL r (Fin k) cone pos = deltaL r (Fin (2 * PI - k)) cone pos
  /\ snd (projectionAlg r (Fin k) cone pos)
     = (e1 pos + deltaL r (Fin k) cone pos)%fp
  /\ snd (projectionAlg r (Fin (2 * PI - k)) cone pos)
     = (e1 pos - deltaL r (Fin k) cone pos)%fp.
Proof.
  intros Hk.
  assert (Hc : fcos (phiE (Fin k)) = fcos (phiE (Fin (2 * PI - k)))).
  { unfold phiE. autorewrite with fp. now rewrite cos_mirror. }
  destruct (latP_clock r _ _ cone pos Hc) as [HL HD].
  unfold projectionAlg. cbn [fst snd]. unfold lonP. rewrite <- HD.
  unfold pi. rewrite fltb_Fin_true by lra. rewrite fltb_Fin_false by lra.
  repeat split; trivial.
Qed.

Lemma projectionAlg_mirror_witness :
  fst (projectionAlg (Fin 6378) (Fin (PI / 2)) (Fin (PI / 6)) pos600)
  = fst (projectionAlg (Fin 6378) (Fin (2 * PI - PI / 2)) (Fin (PI / 6)) pos600).
Proof.
  apply (projectionAlg_mirror (Fin 6378) (Fin (PI / 6)) pos600 (PI / 2)).
  pose proof PI_RGT_0. lra.
Defined.

(** X5: moving the sub-satellite point in longitude by [delta] moves the
    returned point by [delta] in longitude and leaves its latitude
    unchanged. *)
Theorem projectionAlg_longitude_shift (r clock cone lat H : Real)
  (l delta : R) :
  fst (projectionAlg r clock cone (mkRvector3 lat (Fin (l + delta)) H))
  = fst (projectionAlg r clock cone (mkRvector3 lat (Fin l) H))
  /\ snd (projectionAlg r clock cone (mkRvector3 lat (Fin (l + delta)) H))
     = (snd (projectionAlg r clock cone (mkRvector3 lat (Fin l) H))
        + Fin delta)%fp.
Proof.
  split; [reflexivity | ].
  unfold projectionAlg. cbn [snd]. unfold lonP. cbn [e1].
  change (deltaL r clock cone (mkRvector3 lat (Fin (l + delta)) H))
    with (deltaL r clock cone (mkRvector3 lat (Fin l) H)).
  destruct (deltaL_cases r clock cone (mkRvector3 lat (Fin l) H))
    as [E | (d & E & _)]; rewrite E.
  - destruct (clock <? pi)%fp; reflexivity.
  - destruct (clock <? pi)%fp; autorewrite with fp; f_equal; ring.
Qed.

Lemma fcos_not_finite (a : Real) : isFinite a = false -> fcos a = NaN.
Proof. destruct a; simpl; [discriminate | reflexivity | reflexivity]. Qed.

Lemma fsin_not_finite (a : Real) : isFinite a = false -> fsin a = NaN.
Proof. destruct a; simpl; [discriminate | reflexivity | reflexivity]. Qed.

(** Once the first [acos] in [latPPrime] has no value, neither has the
    returned pair. *)
Lemma projectionAlg_latPPrime_NaN (r clock cone : Real) (pos : Rvector3) :
  latPPrime r clock cone pos = NaN ->
  projectionAlg r clock cone pos = (NaN, NaN).
Proof.
  intros HP.
  assert (HL : latP r clock cone pos = NaN).
  { unfold latP. rewrite HP. apply fsub_NaN_r. }
  assert (HD : deltaL r clock cone pos = NaN).
  { unfold deltaL. rewrite HL.
    replace (fsin NaN) with NaN by reflexivity.
    now rewrite fmul_NaN_r, fsub_NaN_r. }
  unfold projectionAlg, lonP. rewrite HL, HD.
  destruct (clock <? pi)%fp; [rewrite fadd_NaN_r | rewrite fsub_NaN_r];
    reflexivity.
Qed.

(** X6: a clock angle, cone angle or sub-satellite latitude that is
    [NaN] or infinite makes both returned angles [NaN]. *)
Theorem projectionAlg_not_finite_input (r clock cone : Real) (pos : Rvector3) :
  isFinite clock = false \/ isFinite cone = false
  \/ isFinite (e0 pos) = false ->
  projectionAlg r clock cone pos = (NaN, NaN).
Proof.
  intros [Hk | [Hc | Hl]].
  - apply projectionAlg_latPPrime_NaN. unfold latPPrime, phiE.
    rewrite (fcos_not_finite (- clock)%fp) by (destruct clock; trivial).
    now rewrite fmul_NaN_r, fadd_NaN_r.
  - apply projectionAlg_epsilon_NaN. unfold epsilon.
    now rewrite (fsin_not_finite cone Hc).
  - apply projectionAlg_latPPrime_NaN. unfold latPPrime.
    rewrite (fsin_not_finite _ Hl), (fcos_not_finite _ Hl).
    rewrite fmul_NaN_r.
    replace (fsin (lambda r cone pos) * NaN * fcos (phiE clock))%fp
      with NaN by (now rewrite fmul_NaN_r).
    reflexivity.
Qed.

Lemma projectionAlg_not_finite_input_witness :
  projectionAlg (Fin 6378) (Fin 0) NaN pos600 = (NaN, NaN).
Proof.
  apply projectionAlg_not_finite_input. right. left. reflexivity.
Defined.



(* ================================================================= *)
(** ** The access matrix and the pole headings *)

(** A vector of finite magnitude has finite elements. *)
Lemma GetMagnitude_finite (v : Rvector3) (mag : R) :
  GetMagnitude v = Fin mag ->
  exists x y z : R,
    v = mkRvector3 (Fin x) (Fin y) (Fin z)
    /\ mag = sqrt (x * x + y * y + z * z).
Proof.
  destruct v as [[x | [ | ] | ] [y | [ | ] | ] [z | [ | ] | ]];
    unfold GetMagnitude; cbn [e0 e1 e2]; intros Hm;
    try (simpl in Hm; discriminate).
  exists x, y, z. split; [reflexivity | ].
  autorewrite with fp in Hm. unfold fsqrt in Hm.
  destruct (Rle_dec 0 (x * x + y * y + z * z)); [ | discriminate].
  now injection Hm as <-.
Qed.

(** Dividing by the magnitude gives a vector of magnitude one. *)
Lemma unitVector_magnitude (v : Rvector3) (mag : R) :
  GetMagnitude v = Fin mag -> mag <> 0 ->
  GetMagnitude (unitVector v) = Fin 1.
Proof.
  intros Hm Hne.
  destruct (GetMagnitude_finite v mag Hm) as (x & y & z & -> & Emag).
  unfold unitVector. rewrite Hm. cbn [e0 e1 e2].
  rewrite !fdiv_Fin by exact Hne. rewrite GetMagnitude_Fin. f_equal.
  assert (Hsum : 0 <= x * x + y * y + z * z) by nra.
  assert (Hmm : mag * mag = x * x + y * y + z * z)
    by (rewrite Emag; now apply sqrt_sqrt).
  replace (x / mag * (x / mag) + y / mag * (y / mag) + z / mag * (z / mag))
    with 1; [apply sqrt_1 | ].
  transitivity ((x * x + y * y + z * z) / (mag * mag)); [ | field; exact Hne].
  rewrite <- Hmm. field. exact Hne.
Qed.

(** X9: for a finite, non-zero topocentric velocity the matrix returned
    by [getNadirToSpacecraftAccessMatrix] is orthonormal exactly when
    the velocity has no vertical component, and then it is
    right-handed. *)
Theorem getNadirToSpacecraftAccessMatrix_orthonormal_iff
  (GetRadius : Real)
  (CartesianToSpherical FixedToTopocentric : Rvector3 -> Real -> Real -> Rvector3)
  (Normalize : Rvector3 -> Rvector3)
  (state_ECF : Rvector6) (a b w : R) :
  normalizes Normalize ->
  topocentricVelocity GetRadius CartesianToSpherical FixedToTopocentric state_ECF
  = mkRvector3 (Fin a) (Fin b) (Fin w) ->
  a <> 0 \/ b <> 0 \/ w <> 0 ->
  let m := getNadirToSpacecraftAccessMatrix GetRadius CartesianToSpherical
             FixedToTopocentric Normalize state_ECF in
  (orthonormal m <-> w = 0) /\ (w = 0 -> rightHanded m).
Proof.
  intros HN Hv Hne m. unfold m, getNadirToSpacecraftAccessMatrix.
  rewrite Hv. clear m Hv.
  destruct (Req_dec_T w 0) as [-> | Hw].
  - assert (Hab : a <> 0 \/ b <> 0) by tauto.
    destruct (accessMatrix_horizontal Normalize HN a b Hab) as [Ho Hr].
    split; [split | ]; intros _; trivial.
  - split; [split | ]; intros H; try contradiction.
    exfalso. now apply (accessMatrix_oblique Normalize HN a b w Hw).
Qed.

Lemma getNadirToSpacecraftAccessMatrix_orthonormal_iff_witness :
  orthonormal
    (getNadirToSpacecraftAccessMatrix (Fin 6378) sphericalOnXAxis
       topocentricOnXAxis unitVector (stateOnXAxis 0 7 0)).
Proof.
  refine (proj2 (proj1 (getNadirToSpacecraftAccessMatrix_orthonormal_iff
            (Fin 6378) sphericalOnXAxis topocentricOnXAxis unitVector
            (stateOnXAxis 0 7 0) (- 0) 7 0 unitVector_normalizes
            eq_refl _)) eq_refl).
  right. left. lra.
Defined.

(** X10: every vector returned by [checkPoleIntersection] whose rotated
    heading has a finite, non-zero magnitude has the magnitude one,
    whatever the three matrices are; the result has one vector for each
    pole heading of the sensor. *)
Theorem checkPoleIntersection_unit (env : Checker.Env) (state_ECF : Rvector6) :
  normalizes (Checker.Normalize env) ->
  length (Checker.checkPoleIntersection env state_ECF)
  = length (Checker.getPoleHeadings env)
  /\ forall (i : nat) (poleHeading : Rvector3) (mag : R),
       nth_error (Checker.getPoleHeadings env) i = Some poleHeading ->
       GetMagnitude
         (mulMV
            (mulMM
               (mulMM (Transpose (Checker.GetBodyFixedToReference env state_ECF))
                      (Transpose (Checker.GetNadirTOBodyMatrix env)))
               (Transpose (Checker.GetBodyToSensorMatrix env 0%Z)))
            poleHeading)
       = Fin mag ->
       mag <> 0 ->
       exists v : Rvector3,
         nth_error (Checker.checkPoleIntersection env state_ECF) i = Some v
         /\ GetMagnitude v = Fin 1.
Proof.
  intros HN. unfold Checker.checkPoleIntersection. split.
  - apply length_map.
  - intros i poleHeading mag Hi Hm Hne.
    eexists. rewrite nth_error_map, Hi. split; [reflexivity | ].
    rewrite (HN _ mag Hm Hne). now apply (unitVector_magnitude _ mag).
Qed.

Lemma checkPoleIntersection_unit_witness :
  exists v : Rvector3,
    nth_error (Checker.checkPoleIntersection sampleEnv (stateOnXAxis 0 7 0)) 0
    = Some v
    /\ GetMagnitude v = Fin 1.
Proof.
  refine (proj2 (checkPoleIntersection_unit sampleEnv (stateOnXAxis 0 7 0)
                   unitVector_normalizes) 0%nat _ _ eq_refl _ _).
  - cbn -[fadd fmul GetMagnitude]. autorewrite with fp.
    apply GetMagnitude_Fin.
  - apply Rgt_not_eq, Rlt_gt, magnitude_positive. right. right. lra.
Defined.

(* ================================================================= *)
(** ** [checkIntersection]: one result for each heading *)

(** What [projectHeadings] returns at index [i]. *)
Lemma projectHeadings_nth (env : Checker.Env) (headings : list Rvector3)
  (state_ECF : Rvector6) (i : nat) :
  nth_error (Checker.projectHeadings env headings state_ECF) i
  = option_map
      (fun heading =>
         let spherical :=
           Checker.CartesianToSpherical env
             (mulMV (Checker.sensorToAccess env state_ECF) heading)
             (Fin 1) (Fin 1) in
         projectionAlg (Checker.GetRadius env) (e1 spherical)
           (pi / Fin 2 - e0 spherical)%fp
           (Checker.CartesianToSpherical env
              (mkRvector3 (s0 state_ECF) (s1 state_ECF) (s2 state_ECF))
              (Fin 1) (Checker.GetRadius env)))
      (nth_error headings i).
Proof.
  unfold Checker.projectHeadings, Checker.unitVectorToClockCone.
  rewrite !nth_error_map. destruct (nth_error headings i); reflexivity.
Qed.


(** The sample checker: the two headings in the access frame. *)
Lemma sampleEnv_rotated (hy hz : R) :
  exists x y z : R,
    mulMV (Checker.sensorToAccess sampleEnv (stateOnXAxis 0 7 0))
          (mkRvector3 (Fin 0) (Fin hy) (Fin hz))
    = mkRvector3 (Fin x) (Fin y) (Fin z)
    /\ z = hz.
Proof.
  unfold Checker.sensorToAccess, getNadirToSpacecraftAccessMatrix.
  change (topocentricVelocity (Checker.GetRadius sampleEnv)
            (Checker.CartesianToSpherical sampleEnv)
            (Checker.FixedToTopocentric sampleEnv) (stateOnXAxis 0 7 0))
    with (mkRvector3 (Fin (- 0)) (Fin 7) (Fin 0)).
  destruct (accessMatrixOfTopocentric_Fin unitVector unitVector_normalizes
              (- 0) 7 0) as (Hm & _ & E); [right; left; lra | ].
  change (Checker.Normalize sampleEnv) with unitVector. rewrite E.
  set (m := sqrt (- - 0 * - - 0 + 7 * 7 + - 0 * - 0)) in *.
  unfold mulMV, mulMM, Transpose, identity33.
  cbn [Checker.GetBodyToSensorMatrix Checker.GetNadirTOBodyMatrix sampleEnv
       e0 e1 e2 m00 m01 m02 m10 m11 m12 m20 m21 m22].
  autorewrite with fp.
  do 3 eexists. split; [reflexivity | ]. unfold Rdiv. ring.
Qed.


(* ================================================================= *)
(** ** [main]: arguments and sensors *)

Lemma string_eqb_both (a b c : String.string) :
  String.eqb a b = true -> String.eqb a c = true -> b = c.
Proof.
  intros H1 H2. apply String.eqb_eq in H1, H2. congruence.
Qed.

Ltac clash_of_names :=
  match goal with
  | H1 : String.eqb ?a ?b = true, H2 : String.eqb ?a ?c = true |- _ =>
      let E := fresh in
      pose proof (string_eqb_both a b c H1 H2) as E; discriminate E
  end.

(** X13: the spellings for which [main] creates a sensor ("CONICAL",
    "RECTANGULAR", "CUSTOM") and those for which it deletes one at the
    end ("Conical", "Custom", "Rectangular") never meet: a pointer that
    is deleted was never assigned, and a sensor that was created is
    never deleted. *)
Theorem sensor_deleted_never_created (senType : String.string) :
  (deletedSensor senType <> None -> createdSensor senType = None)
  /\ (createdSensor senType <> None -> deletedSensor senType = None)
  /\ createdSensor "CONICAL"%string = Some conicalSensor
  /\ deletedSensor "Conical"%string = Some conicalSensor.
Proof.
  unfold deletedSensor, createdSensor.
  destruct (String.eqb senType "CONICAL") eqn:E1;
    destruct (String.eqb senType "RECTANGULAR") eqn:E2;
    destruct (String.eqb senType "CUSTOM") eqn:E3;
    destruct (String.eqb senType "Conical") eqn:E4;
    destruct (String.eqb senType "Custom") eqn:E5;
    destruct (String.eqb senType "Rectangular") eqn:E6;
    try clash_of_names; cbn [orb];
    repeat split; try reflexivity; intros H; try reflexivity;
    exfalso; apply H; reflexivity.
Qed.

(** X15: a run that passes the argument checks and creates a sensor has
    as many clock angles as cone angles, also for the conical sensor
    that reads the first cone angle only; the one spelling that is
    exempt from this check, "Conical", creates no sensor. *)
Theorem created_sensor_needs_clock_angles (argc : Integer)
  (epoch senOrien senClock senCone : RealArray) (senType : String.string) :
  checkArguments argc epoch senOrien senClock senCone senType = true ->
  (createdSensor senType <> None -> length senClock = length senCone)
  /\ (senType = "Conical"%string -> createdSensor senType = None).
Proof.
  intros Hok. split.
  - intros Hc. unfold checkArguments in Hok.
    destruct (negb (argc =? 18)%Z); [discriminate | ].
    destruct (negb (length epoch =? 6)%nat); [discriminate | ].
    destruct (negb (length senOrien =? 6)%nat); [discriminate | ].
    destruct (length senCone =? 0)%nat; [discriminate | ].
    destruct (String.eqb senType "Conical") eqn:Es.
    + exfalso. apply Hc. apply String.eqb_eq in Es. now subst.
    + cbn [negb andb] in Hok.
      destruct (length senCone =? length senClock)%nat eqn:El;
        [ | discriminate].
      apply Nat.eqb_eq in El. now symmetry.
  - intros ->. reflexivity.
Qed.

Lemma created_sensor_needs_clock_angles_witness :
  length [Fin 0] = length [Fin 30]
  /\ createdSensor "Conical"%string = None.
Proof.
  assert (Hok : checkArguments 18%Z
                  [Fin 2020; Fin 1; Fin 1; Fin 0; Fin 0; Fin 0]
                  [Fin 1; Fin 2; Fin 3; Fin 0; Fin 0; Fin 0]
                  [Fin 0] [Fin 30] "CONICAL"%string = true) by reflexivity.
  split.
  - apply (proj1 (created_sensor_needs_clock_angles _ _ _ _ _ _ Hok)).
    discriminate.
  - reflexivity.
Defined.

(* ================================================================= *)
(** ** [main]: the cells of an access line *)

Lemma store_length (row : IntegerArray) (i : nat) (v : Integer) :
  length (store row i v) = length row.
Proof.
  revert i. induction row as [ | x t IH]; intros [ | i]; simpl; trivial.
  now rewrite IH.
Qed.

Lemma store_nth (row : IntegerArray) (i k : nat) (v d : Integer) :
  (k < length row)%nat ->
  nth k (store row i v) d = if (k =? i)%nat then v else nth k row d.
Proof.
  revert i k. induction row as [ | x t IH]; intros i k Hk; simpl in Hk;
    [lia | ].
  destruct i as [ | i], k as [ | k]; simpl; trivial.
  apply IH. lia.
Qed.

Lemma assign_length (row : IntegerArray) (i v : Integer) :
  length (assign row i v) = length row.
Proof.
  unfold assign. destruct (i <? 0)%Z; [reflexivity | apply store_length].
Qed.

Lemma assign_nth (row : IntegerArray) (i v d : Integer) (k : nat) :
  (k < length row)%nat ->
  nth k (assign row i v) d
  = if (Z.of_nat k =? i)%Z then v else nth k row d.
Proof.
  intros Hk. unfold assign.
  destruct (i <? 0)%Z eqn:Hi.
  - apply Z.ltb_lt in Hi.
    destruct (Z.of_nat k =? i)%Z eqn:E; [apply Z.eqb_eq in E; lia | reflexivity].
  - apply Z.ltb_ge in Hi. rewrite store_nth by exact Hk.
    destruct (k =? Z.to_nat i)%nat eqn:E1, (Z.of_nat k =? i)%Z eqn:E2;
      trivial.
    + apply Nat.eqb_eq in E1. apply Z.eqb_neq in E2. lia.
    + apply Nat.eqb_neq in E1. apply Z.eqb_eq in E2. lia.
Qed.

Lemma mark_length (loopPoints row : IntegerArray) :
  length (fold_left (fun accessRow p => assign accessRow p 1%Z) loopPoints row)
  = length row.
Proof.
  revert row. induction loopPoints as [ | p t IH]; intros row; simpl;
    [reflexivity | ].
  now rewrite IH, assign_length.
Qed.

Lemma mark_nth (loopPoints row : IntegerArray) (k : nat) :
  (k < length row)%nat ->
  nth k (fold_left (fun accessRow p => assign accessRow p 1%Z) loopPoints row)
      0%Z = 1%Z
  <-> nth k row 0%Z = 1%Z \/ In (Z.of_nat k) loopPoints.
Proof.
  revert row. induction loopPoints as [ | p t IH]; intros row Hk; simpl.
  - tauto.
  - rewrite IH by (now rewrite assign_length).
    rewrite assign_nth by exact Hk.
    destruct (Z.of_nat k =? p)%Z eqn:E.
    + apply Z.eqb_eq in E. subst p. tauto.
    + apply Z.eqb_neq in E.
      split; [tauto | ]. intros [H | [H | H]]; [tauto | | tauto].
      now elim E.
Qed.

(** X16: for a list of visible points that holds grid indices only
    (numbers from [0] to [numGridPoints - 1]), the access line has
    exactly [numGridPoints] cells and the cell of grid point [k] is
    written as [",1"] exactly when [k] is in the list; the order of the
    list and repeated indices make no difference. *)
Theorem accessLine_cells (A : Inputs) (n : Integer) (loopPoints : IntegerArray) :
  (forall p : Integer,
     In p loopPoints -> (0 <= p < Z.of_nat (numGridPoints A))%Z) ->
  length (accessCells (accessLine A n loopPoints)) = numGridPoints A
  /\ forall k : nat,
       (k < numGridPoints A)%nat ->
       (nth k (accessCells (accessLine A n loopPoints)) false = true
        <-> In (Z.of_nat k) loopPoints).
Proof.
  intros _. unfold accessLine. cbn [accessCells]. unfold accessRowOf. split.
  - now rewrite length_map, mark_length, repeat_length.
  - intros k Hk.
    assert (Hlen : (k < length (repeat 0%Z (numGridPoints A)))%nat)
      by (now rewrite repeat_length).
    change false with ((fun c : Integer => (c =? 1)%Z) 0%Z).
    rewrite map_nth, Z.eqb_eq, mark_nth by exact Hlen.
    rewrite nth_repeat. intuition discriminate.
Qed.

Lemma accessLine_cells_witness :
  length (accessCells (accessLine tickInputs 0%Z [1; 0; 1]%Z)) = 2%nat
  /\ (nth 0 (accessCells (accessLine tickInputs 0%Z [1; 0; 1]%Z)) false = true
      <-> In 0%Z [1; 0; 1]%Z).
Proof.
  assert (Hin : forall p : Integer,
            In p [1; 0; 1]%Z -> (0 <= p < Z.of_nat (numGridPoints tickInputs))%Z)
    by (simpl; intros p H; lia).
  destruct (accessLine_cells tickInputs 0%Z [1; 0; 1]%Z Hin) as [Hlen Hcell].
  split; [exact Hlen | ]. apply (Hcell 0%nat). simpl. lia.
Defined.

(* ================================================================= *)
(** ** [main]: how long the loop runs *)

Section LoopLength.

Context (E : Collaborators) (A : Inputs).

(** While the guard holds the loop does not return. *)
Lemma mainLoop_guard_always (startDate : Real) (date0 : AbsoluteDate E) :
  (forall k : nat,
     loopGuard E A startDate (afterSteps E A k date0) = true) ->
  forall fuel n : nat,
    mainLoop E A fuel startDate (afterSteps E A n date0) = None.
Proof.
  intros Hg fuel. induction fuel as [ | fuel IH]; intros n; simpl;
    rewrite Hg; [reflexivity | ].
  rewrite <- afterSteps_S. apply IH.
Qed.

(** The guard at the head of iteration [k] when [Advance] adds [delta]
    to the Julian date. *)
Lemma loopGuard_additive (j0 delta D : R) (date0 : AbsoluteDate E) :
  (forall d : AbsoluteDate E,
     GetJulianDate E (Advance E d (stepSize A))
     = (GetJulianDate E d + Fin delta)%fp) ->
  GetJulianDate E date0 = Fin j0 ->
  duration A = Fin D ->
  forall k : nat,
    loopGuard E A (Fin j0) (afterSteps E A k date0)
    = if Rlt_dec (INR k * delta) D then true else false.
Proof.
  intros Hadv H0 HD k. unfold loopGuard.
  destruct (afterSteps_head E A k date0) as (Hd & _ & _).
  rewrite Hd, (epochAt_julian E A j0 delta date0 Hadv H0), HD.
  autorewrite with fp. unfold fltb.
  destruct (Rlt_dec (j0 + INR k * delta) (j0 + D)),
           (Rlt_dec (INR k * delta) D); trivial; lra.
Qed.

End LoopLength.

(** X18: the step size is not checked.  When [Advance(stepSize)] adds
    nothing, or a negative amount, to the Julian date and the duration is
    positive, the guard never fails and the loop does not end: it uses
    up every bound on the number of iterations. *)
Theorem mainLoop_runs_forever (E : Collaborators) (A : Inputs)
  (j0 delta D : R) (date0 : AbsoluteDate E) :
  (forall d : AbsoluteDate E,
     GetJulianDate E (Advance E d (stepSize A))
     = (GetJulianDate E d + Fin delta)%fp) ->
  GetJulianDate E date0 = Fin j0 ->
  duration A = Fin D ->
  delta <= 0 -> 0 < D ->
  forall fuel : nat,
    mainLoop E A fuel (Fin j0) (loopStart E date0) = None.
Proof.
  intros Hadv H0 HD Hdelta HDpos fuel.
  apply (mainLoop_guard_always E A (Fin j0) date0) with (n := 0%nat).
  intros k. rewrite (loopGuard_additive E A j0 delta D); trivial.
  destruct (Rlt_dec (INR k * delta) D) as [ | N]; [reflexivity | ].
  exfalso. apply N. pose proof (pos_INR k). nra.
Qed.

Lemma mainLoop_runs_forever_witness :
  mainLoop stuckCollaborators stuckInputs 1000 (Fin 0)
    (loopStart stuckCollaborators 0%Z) = None.
Proof.
  apply (mainLoop_runs_forever stuckCollaborators stuckInputs 0 0 1 0%Z).
  - intros d. simpl. f_equal. ring.
  - reflexivity.
  - reflexivity.
  - lra.
  - lra.
Defined.

(** X19: with a finite start date, a duration that is zero, negative or
    [NaN] ends the loop before its first iteration: nothing is
    propagated and both files keep their headers only. *)
Theorem mainLoop_no_iteration (E : Collaborators) (A : Inputs)
  (j0 : R) (date0 : AbsoluteDate E) :
  GetJulianDate E date0 = Fin j0 ->
  duration A = NaN \/ (exists D : R, duration A = Fin D /\ D <= 0) ->
  forall fuel : nat,
    mainLoop E A fuel (Fin j0) (loopStart E date0) = Some (loopStart E date0)
    /\ satOut E (loopStart E date0) = []
    /\ satAcc E (loopStart E date0) = [].
Proof.
  intros H0 Hdur fuel.
  assert (Hg : loopGuard E A (Fin j0) (loopStart E date0) = false).
  { unfold loopGuard. cbn [date loopStart]. rewrite H0.
    destruct Hdur as [-> | (D & -> & HD)]; [reflexivity | ].
    autorewrite with fp. apply fltb_Fin_false. lra. }
  repeat split. destruct fuel; simpl; now rewrite Hg.
Qed.

Lemma mainLoop_no_iteration_witness :
  mainLoop tickCollaborators noDurationInputs 0 (Fin 0)
    (loopStart tickCollaborators 0%Z)
  = Some (loopStart tickCollaborators 0%Z).
Proof.
  apply (mainLoop_no_iteration tickCollaborators noDurationInputs 0 0%Z
           eq_refl).
  right. exists 0. split; [reflexivity | lra].
Defined.

Lemma flat_map_short {X Y : Type} (f : X -> list Y) (l : list X) :
  (forall x, (length (f x) <= 1)%nat) ->
  (length (flat_map f l) <= length l)%nat.
Proof.
  intros Hf. induction l as [ | x t IH]; simpl; [lia | ].
  rewrite length_app. specialize (Hf x). lia.
Qed.

(** X20: after [n] iterations the states file has [n] lines and the
    access file at most [n]; every access line carries the time label of
    a tick [k < n] at which some grid point was in view, and the states
    file has a line with the same label at position [k]. *)
Theorem access_lines_among_states_lines (E : Collaborators) (A : Inputs)
  (date0 : AbsoluteDate E) (n : nat) :
  length (satOut E (afterSteps E A n date0)) = n
  /\ (length (satAcc E (afterSteps E A n date0)) <= n)%nat
  /\ forall row : AccessRow,
       In row (satAcc E (afterSteps E A n date0)) ->
       exists k : nat,
         (k < n)%nat
         /\ loopPointsOfTick E A date0 k <> []
         /\ row = accessLine A (Z.of_nat k) (loopPointsOfTick E A date0 k)
         /\ option_map statesTime
              (nth_error (satOut E (afterSteps E A n date0)) k)
            = Some (accessTime row).
Proof.
  rewrite afterSteps_satOut, afterSteps_satAcc.
  split; [now rewrite length_map, length_seq | split].
  - apply Nat.le_trans with (length (seq 0 n));
      [ | rewrite length_seq; lia].
    apply flat_map_short.
    intros k. unfold accessLinesOfTick.
    destruct (loopPointsOfTick E A date0 k); simpl; lia.
  - intros row Hin. apply in_flat_map in Hin.
    destruct Hin as (k & Hk & Hrow). apply in_seq in Hk.
    exists k. unfold accessLinesOfTick in Hrow.
    destruct (loopPointsOfTick E A date0 k) as [ | p t] eqn:Ep;
      [contradiction | ].
    destruct Hrow as [<- | []].
    repeat split; try lia; try discriminate.
    rewrite nth_error_map, nth_error_seq.
    destruct (Nat.ltb_spec k n); [reflexivity | lia].
Qed.

(* ================================================================= *)
(** ** [main]: more on the list of visible points *)

(** Two strictly ascending lists with the same elements are equal. *)
Lemma strictly_sorted_ext (l1 l2 : IntegerArray) :
  StronglySorted Z.lt l1 -> StronglySorted Z.lt l2 ->
  (forall p : Integer, In p l1 <-> In p l2) ->
  l1 = l2.
Proof.
  intros H1. revert l2.
  induction H1 as [ | x t1 Hs1 IH Hx]; intros l2 H2 Hin.
  - destruct l2 as [ | y t2]; [reflexivity | ].
    exfalso. apply (proj2 (Hin y)). now left.
  - destruct H2 as [ | y t2 Hs2 Hy].
    + exfalso. apply (proj1 (Hin x)). now left.
    + rewrite Forall_forall in Hx, Hy.
      assert (Hxy : x = y).
      { destruct (proj1 (Hin x) (or_introl eq_refl)) as [E | Hi];
          [now symmetry | ].
        destruct (proj2 (Hin y) (or_introl eq_refl)) as [E | Hj];
          [exact E | ].
        specialize (Hx y Hj). specialize (Hy x Hi). lia. }
      subst y. f_equal. apply IH; [exact Hs2 | ].
      intros p. split; intros Hp.
      * destruct (proj1 (Hin p) (or_intror Hp)) as [E | Hi]; [ | exact Hi].
        subst p. specialize (Hx x Hp). lia.
      * destruct (proj2 (Hin p) (or_intror Hp)) as [E | Hi]; [ | exact Hi].
        subst p. specialize (Hy x Hp). lia.
Qed.



(** X22: with [yaw180_flag] set, if the two coverage results hold grid
    indices only, that is numbers from [0] to [numGridPoints - 1], the
    list of visible points has at most [numGridPoints] entries, however
    many the two results have together. *)
Theorem loopPoints_at_most_grid
  (E : Collaborators) (A : Inputs) (d : AbsoluteDate E) (c : Rvector6) :
  yaw180_flag A = true ->
  (forall (yaw : bool) (p : Integer),
     In p (CheckPointCoverage E d c yaw) ->
     (0 <= p < Z.of_nat (numGridPoints A))%Z) ->
  (length (loopPointsAt E A d c) <= numGridPoints A)%nat.
Proof.
  intros Hyaw Hrange. unfold loopPointsAt. rewrite Hyaw.
  set (l := CheckPointCoverage E d c false ++ CheckPointCoverage E d c true).
  apply Nat.le_trans with (length (map Z.of_nat (seq 0 (numGridPoints A))));
    [ | rewrite length_map, length_seq; lia].
  apply NoDup_incl_length.
  - apply strictly_sorted_NoDup, unique_sorted, sort_sorted.
  - intros p Hp. rewrite unique_In, sort_In in Hp. unfold l in Hp.
    apply in_app_or in Hp.
    assert (Hr : (0 <= p < Z.of_nat (numGridPoints A))%Z)
      by (destruct Hp as [Hp | Hp]; eapply Hrange; exact Hp).
    apply in_map_iff. exists (Z.to_nat p). split; [lia | ].
    apply in_seq. lia.
Qed.

Lemma loopPoints_at_most_grid_witness :
  (length (loopPointsAt tickCollaborators tickInputs 0%Z
             (Propagate tickCollaborators 0%Z)) <= 2)%nat.
Proof.
  apply (loopPoints_at_most_grid tickCollaborators tickInputs 0%Z
           (Propagate tickCollaborators 0%Z) eq_refl).
  intros yaw p. simpl. destruct yaw; simpl; intros H; lia.
Defined.

(* ================================================================= *)
(** ** [readCovGridFile] *)

Lemma vecStrOutOf_not_nil (line : String.string) : vecStrOutOf line <> [].
Proof.
  destruct line as [ | c rest]; simpl; [discriminate | ].
  destruct (Ascii.eqb c ","%char); [discriminate | ].
  destruct (vecStrOutOf rest); discriminate.
Qed.

(** X23: a line is cut at its commas and nowhere else: it has one field
    more than it has commas (so never none), no field holds a comma, and
    the fields joined by commas give the line back. *)
Theorem vecStrOutOf_fields (line : String.string) :
  length (vecStrOutOf line) = S (commas line)
  /\ Forall (fun substr => commas substr = 0%nat) (vecStrOutOf line)
  /\ String.concat ","%string (vecStrOutOf line) = line.
Proof.
  induction line as [ | c rest (IHlen & IHall & IHcat)]; simpl.
  - repeat split. repeat constructor.
  - destruct (Ascii.eqb c ","%char) eqn:Ec.
    + apply Ascii.eqb_eq in Ec. subst c. repeat split.
      * simpl. now rewrite IHlen.
      * constructor; [reflexivity | exact IHall].
      * simpl. destruct (vecStrOutOf rest) eqn:Ev;
          [now elim (vecStrOutOf_not_nil rest) | ].
        now rewrite IHcat.
    + destruct (vecStrOutOf rest) as [ | substr others] eqn:Ev;
        [now elim (vecStrOutOf_not_nil rest) | ].
      repeat split.
      * exact IHlen.
      * inversion IHall as [ | ? ? Hs Ho]; subst.
        constructor; [simpl; now rewrite Ec | exact Ho].
      * simpl in *. destruct others; simpl in *; now rewrite IHcat.
Qed.

(* ================================================================= *)
(** ** [main]: the time column of the two files *)

Lemma sorted_seq (start len : nat) : StronglySorted lt (seq start len).
Proof.
  revert start. induction len as [ | len IH]; intros start; simpl;
    constructor; [apply IH | ].
  apply Forall_forall. intros k Hk. apply in_seq in Hk. lia.
Qed.

Lemma sorted_filter {X : Type} (R : X -> X -> Prop) (f : X -> bool)
  (l : list X) :
  StronglySorted R l -> StronglySorted R (filter f l).
Proof.
  induction 1 as [ | x t Hs IH Hall]; simpl; [constructor | ].
  destruct (f x); [ | exact IH].
  constructor; [exact IH | ].
  rewrite Forall_forall in *. intros y Hy. apply filter_In in Hy.
  now apply Hall.
Qed.

Lemma sorted_map {X Y : Type} (R : X -> X -> Prop) (S : Y -> Y -> Prop)
  (g : X -> Y) (l : list X) :
  (forall a b, R a b -> S (g a) (g b)) ->
  StronglySorted R l -> StronglySorted S (map g l).
Proof.
  intros Hg. induction 1 as [ | x t Hs IH Hall]; simpl; constructor;
    [exact IH | ].
  rewrite Forall_forall in *. intros y Hy. apply in_map_iff in Hy.
  destruct Hy as (a & <- & Ha). now apply Hg, Hall.
Qed.

(** The access lines are those of the ticks with a point in view. *)
Lemma flat_map_accessLines (E : Collaborators) (A : Inputs)
  (date0 : AbsoluteDate E) (ticks : list nat) :
  flat_map (accessLinesOfTick E A date0) ticks
  = map (fun k => accessLine A (Z.of_nat k) (loopPointsOfTick E A date0 k))
        (filter (fun k => (0 <? length (loopPointsOfTick E A date0 k))%nat)
                ticks).
Proof.
  induction ticks as [ | k t IH]; simpl; [reflexivity | ].
  rewrite IH. unfold accessLinesOfTick at 1.
  destruct (loopPointsOfTick E A date0 k) eqn:Ep; simpl; rewrite ?Ep;
    reflexivity.
Qed.

(** X25: for a finite positive step size the time labels grow strictly
    from line to line in the states file and in the access file, so no
    label occurs twice in a file. *)
Theorem time_labels_ascending (E : Collaborators) (A : Inputs)
  (date0 : AbsoluteDate E) (n : nat) (step : R) :
  stepSize A = Fin step -> 0 < step ->
  StronglySorted fltR (map statesTime (satOut E (afterSteps E A n date0)))
  /\ StronglySorted fltR (map accessTime (satAcc E (afterSteps E A n date0))).
Proof.
  intros Hs Hpos.
  assert (Hmono : forall a b : nat,
            (a < b)%nat ->
            fltR (timeLabel A (Z.of_nat a)) (timeLabel A (Z.of_nat b))).
  { intros a b Hab. unfold fltR, timeLabel. rewrite Hs.
    autorewrite with fp. apply fltb_Fin_true.
    apply Rmult_lt_compat_r; [exact Hpos | ]. apply IZR_lt. lia. }
  rewrite afterSteps_satOut, afterSteps_satAcc, flat_map_accessLines.
  rewrite !map_map. split.
  - apply (sorted_map lt); [exact Hmono | apply sorted_seq].
  - apply (sorted_map lt); [exact Hmono | ].
    apply sorted_filter, sorted_seq.
Qed.

Lemma time_labels_ascending_witness :
  StronglySorted fltR
    (map accessTime
       (satAcc tickCollaborators (afterSteps tickCollaborators tickInputs 3 0%Z))).
Proof.
  apply (time_labels_ascending tickCollaborators tickInputs 0%Z 3 1 eq_refl).
  lra.
Defined.
